(** * Galera: gcache MemStore, the GCS lite FIFO, the gcomm backend receive
      path and the asynchronous socket contract

    A shallow embedding of
    - [gcache::MemStore] (gcache_mem_store.hpp),
    - [gcs_fifo_lite_create] / [gcs_fifo_lite_close] (gcs_fifo_lite.c),
    - [gcs_gcomm_recv] and the event queue of [gcs_gcomm] (gcs_gcomm.cpp),
    - the socket / stream-engine contract exercised by gu_asio_test.cpp.

    C++ state is threaded explicitly.  A function that can hit an [assert]
    or dereference a dead pointer returns an [outcome]. *)

From Stdlib Require Import ZArith List Lia Bool String.
From stdpp Require Import base option gmap list strings pretty.

Local Open Scope Z_scope.

(** ** Outcomes of a call *)

Inductive outcome (A : Type) : Type :=
| Returns (a : A)      (* the call returns normally *)
| Aborted              (* an [assert] did not hold or [abort()] was called *)
| Undefined.           (* a pointer to no live block was dereferenced *)

Arguments Returns {A} a.
Arguments Aborted {A}.
Arguments Undefined {A}.

#[global] Instance outcome_ret : MRet outcome := fun A a => Returns a.
#[global] Instance outcome_bind : MBind outcome := fun A B f c =>
  match c with
  | Returns a => f a
  | Aborted => Aborted
  | Undefined => Undefined
  end.

(** [assert (b)] *)
Definition assert (b : bool) : outcome unit :=
  if b then Returns tt else Aborted.

Lemma assert_true_bind {B} (b : bool) (k : unit -> outcome B) :
  b = true -> (assert b ≫= k) = k tt.
Proof. intros ->. reflexivity. Qed.

Lemma assert_false_bind {B} (b : bool) (k : unit -> outcome B) :
  b = false -> (assert b ≫= k) = Aborted.
Proof. intros ->. reflexivity. Qed.

Lemma bind_Returns {A B} (c : outcome A) (k : A -> outcome B) (r : B) :
  (c ≫= k) = Returns r -> exists a, c = Returns a /\ k a = Returns r.
Proof. destruct c; simpl; intros H; try discriminate. eauto. Qed.

Lemma assert_Returns (b : bool) (u : unit) : assert b = Returns u -> b = true.
Proof. destruct b; [reflexivity | discriminate]. Qed.

(** ** Machine integers

    [size_t] and [unsigned long] are 64 bits wide, [long] is their signed
    counterpart (an LP64 target). *)

Definition wrap (bits : Z) (x : Z) : Z := x mod 2 ^ bits.

Definition to_signed (bits : Z) (x : Z) : Z :=
  let u := wrap bits x in
  if u <? 2 ^ (bits - 1) then u else u - 2 ^ bits.

Definition to_size_t (x : Z) : Z := wrap 64 x.
Definition to_long (x : Z) : Z := to_signed 64 x.

Lemma to_size_t_small x : 0 <= x < 2 ^ 64 -> to_size_t x = x.
Proof. intros H. unfold to_size_t, wrap. apply Z.mod_small. exact H. Qed.

Lemma to_long_small x : 0 <= x < 2 ^ 63 -> to_long x = x.
Proof.
  intros H. unfold to_long, to_signed, wrap.
  rewrite Z.mod_small by lia.
  change (64 - 1) with 63.
  destruct (x <? 2 ^ 63) eqn:E; [reflexivity|].
  apply Z.ltb_ge in E. lia.
Qed.

Lemma to_size_t_to_long x : to_size_t (to_long x) = to_size_t x.
Proof.
  unfold to_size_t, to_long, to_signed, wrap.
  destruct (x mod 2 ^ 64 <? 2 ^ (64 - 1)).
  - apply Z.mod_mod. lia.
  - rewrite Zminus_mod, Z.mod_same, Z.sub_0_r by lia.
    rewrite !Z.mod_mod by lia. reflexivity.
Qed.

(** * gcache::MemStore *)

Module MemStore.

(** The buffer header that prefixes every payload in the cache. *)
Record BufferHeader : Type := mkBH {
  bh_size    : Z;   (* size    *)
  bh_seqno_g : Z;   (* seqno_g *)
  bh_flags   : Z;   (* flags   *)
  bh_store   : Z;   (* store   *)
  bh_ctx     : Z    (* ctx     *)
}.

(** A live block of the C heap: the header it starts with and the payload
    bytes that follow it. *)
Record buffer : Type := mkBuffer {
  header  : BufferHeader;
  payload : list Byte.byte
}.

(** What gcache_bh.hpp, gcache_types.hpp, gcache_memops.hpp and
    gcache_limits.hpp declare; those headers are not among the sources, so
    the values stay abstract. *)
Record decls : Type := mkDecls {
  sizeof_BH       : Z;          (* sizeof(BufferHeader) *)
  SEQNO_NONE      : Z;
  SEQNO_MAX       : Z;
  BUFFER_RELEASED : Z;          (* the released bit of [flags] *)
  BUFFER_IN_MEM   : Z;          (* the store id of MemStore *)
  size_type_bits  : Z;          (* width of size_type and diff_type *)
  assert_size     : Z -> bool   (* Limits::assert_size holds *)
}.

(** The answer of the C allocator to [::malloc] or [::realloc]: the address
    of the block (0 when out of memory) and the bytes found in its fresh
    part. *)
Record c_block : Type := mkCBlock {
  c_ptr   : Z;
  c_bytes : list Byte.byte
}.

(** The object: its own address, its members, and the part of the C heap
    its pointers range over. *)
Record store : Type := mkStore {
  this          : Z;
  max_size_     : Z;
  size_         : Z;
  allocd_       : gset Z;
  seqno2ptr_    : gmap Z Z;
  seqno_locked_ : Z;
  debug_        : Z;
  heap          : gmap Z buffer
}.

Definition set_size_ (v : Z) (s : store) : store :=
  mkStore (this s) (max_size_ s) v (allocd_ s) (seqno2ptr_ s)
          (seqno_locked_ s) (debug_ s) (heap s).

Definition set_allocd_ (v : gset Z) (s : store) : store :=
  mkStore (this s) (max_size_ s) (size_ s) v (seqno2ptr_ s)
          (seqno_locked_ s) (debug_ s) (heap s).

Definition set_heap (v : gmap Z buffer) (s : store) : store :=
  mkStore (this s) (max_size_ s) (size_ s) (allocd_ s) (seqno2ptr_ s)
          (seqno_locked_ s) (debug_ s) v.

Definition set_header (h : BufferHeader) (b : buffer) : buffer :=
  mkBuffer h (payload b).

Definition set_bh_size (v : Z) (h : BufferHeader) : BufferHeader :=
  mkBH v (bh_seqno_g h) (bh_flags h) (bh_store h) (bh_ctx h).

Section Model.

Variable D : decls.

(** [bool have_free_space (size_type size)] is declared in the class and
    defined in gcache_mem_store.cpp, which is not among the sources: it is a
    non-const member, so it maps a store to its answer and a store. *)
Variable have_free_space : store -> Z -> bool * store.

Definition to_size_type (x : Z) : Z := wrap (size_type_bits D) x.
Definition to_diff_type (x : Z) : Z := to_signed (size_type_bits D) x.

(** [ptr2BH(ptr)]: the header sits immediately before the payload pointer,
    as [return (bh + 1)] has it. *)
Definition ptr2BH (ptr : Z) : Z := ptr - sizeof_BH D.
Definition BH2ptr (bh : Z) : Z := bh + sizeof_BH D.

Definition BH_is_released (h : BufferHeader) : bool :=
  negb (Z.land (bh_flags h) (BUFFER_RELEASED D) =? 0).

(** [MemStore (max_size, seqno2ptr, dbg)] *)
Definition MemStore (addr max_size : Z) (seqno2ptr : gmap Z Z) (dbg : Z)
    (h : gmap Z buffer) : store :=
  mkStore addr max_size 0 ∅ seqno2ptr (SEQNO_MAX D) (Z.land dbg 1) h.

(** [void discard (BufferHeader* bh)] *)
Definition discard (bh : Z) (s : store) : outcome store :=
  match heap s !! bh with
  | None => Undefined
  | Some b =>
      assert (BH_is_released (header b));;
      assert (bh_seqno_g (header b) <? seqno_locked_ s);;
      mret (set_heap (delete bh (heap s))
             (set_allocd_ (allocd_ s ∖ {[bh]})
               (set_size_ (to_size_t (size_ s - bh_size (header b))) s)))
  end.

(** [void free (BufferHeader* bh)] *)
Definition free (bh : Z) (s : store) : outcome store :=
  match heap s !! bh with
  | None => Undefined
  | Some b =>
      assert (0 <? bh_size (header b));;
      assert (bh_size (header b) <=? size_ s);;
      assert (bh_store (header b) =? BUFFER_IN_MEM D);;
      assert (bh_ctx (header b) =? this s);;
      if SEQNO_NONE D =? bh_seqno_g (header b) then discard bh s
      else mret s
  end.

(** [void repossess (BufferHeader* bh)] *)
Definition repossess (bh : Z) (s : store) : outcome store :=
  match heap s !! bh with
  | None => Undefined
  | Some b =>
      assert (0 <? bh_size (header b));;
      assert (negb (bh_seqno_g (header b) =? SEQNO_NONE D));;
      assert (bh_store (header b) =? BUFFER_IN_MEM D);;
      assert (bh_ctx (header b) =? this s);;
      assert (BH_is_released (header b));;
      mret s
  end.

(** [void* malloc (size_type size)]; [sys] is what [::malloc (size)]
    answers if it is reached. *)
Definition malloc (sys : c_block) (size : Z) (s : store)
    : outcome (Z * store) :=
  assert (assert_size D size);;
  if max_size_ s <? size then mret (0, s)
  else
    let '(ok, s1) := have_free_space s size in
    if negb ok then mret (0, s1)
    else
      assert (to_size_t (size_ s1 + size) <=? max_size_ s1);;
      let bh := c_ptr sys in
      if negb (bh =? 0) then
        let b := mkBuffer (mkBH size (SEQNO_NONE D) 0 (BUFFER_IN_MEM D)
                                (this s1))
                          (c_bytes sys) in
        mret (bh + sizeof_BH D,
              set_size_ (to_size_t (size_ s1 + size))
                (set_heap (<[bh := b]> (heap s1))
                  (set_allocd_ ({[bh]} ∪ allocd_ s1) s1)))
      else mret (0, s1).

(** [void* realloc (void* ptr, size_type size)]; [sys] is what
    [::malloc] or [::realloc] answers if it is reached. *)
Definition realloc (sys : c_block) (ptr size : Z) (s : store)
    : outcome (Z * store) :=
  if ptr =? 0 then malloc sys size s
  else
    let bh := ptr2BH ptr in
    match heap s !! bh with
    | None => Undefined
    | Some b =>
        assert (SEQNO_NONE D =? bh_seqno_g (header b));;
        if size =? 0 then
          s' ← free bh s; mret (0, s')
        else
          let orig := bh in
          let old_size := bh_size (header b) in
          let diff_size := to_diff_type (size - old_size) in
          if max_size_ s <? size then mret (0, s)
          else
            let '(ok, s1) := have_free_space s (to_size_type diff_size) in
            if negb ok then mret (0, s1)
            else
              assert (to_size_t (size_ s1 + diff_size) <=? max_size_ s1);;
              let s2 := set_allocd_ (allocd_ s1 ∖ {[bh]}) s1 in
              match heap s2 !! bh with
              | None => Undefined
              | Some b1 =>
                  let tmp := c_ptr sys in
                  if negb (tmp =? 0) then
                    (* the block now lives at [tmp], resized *)
                    let moved :=
                      mkBuffer (header b1)
                        (take (Z.to_nat (size - sizeof_BH D))
                              (payload b1 ++ c_bytes sys)) in
                    let s3 := set_allocd_ ({[tmp]} ∪ allocd_ s2) s2 in
                    assert (bh_size (header moved) =? old_size);;
                    mret (tmp + sizeof_BH D,
                          set_size_ (to_size_t (size_ s3 + diff_size))
                            (set_heap
                               (<[tmp := set_header
                                           (set_bh_size size (header moved))
                                           moved]>
                                  (delete bh (heap s3)))
                               s3))
                  else
                    assert (0 <? size);;
                    mret (0, set_allocd_ ({[orig]} ∪ allocd_ s2) s2)
              end
    end.

(** [void set_max_size (size_t size)] *)
Definition set_max_size (size : Z) (s : store) : store :=
  mkStore (this s) size (size_ s) (allocd_ s) (seqno2ptr_ s)
          (seqno_locked_ s) (debug_ s) (heap s).

(** [void seqno_lock (seqno_t const seqno_g)] *)
Definition seqno_lock (seqno_g : Z) (s : store) : store :=
  mkStore (this s) (max_size_ s) (size_ s) (allocd_ s) (seqno2ptr_ s)
          seqno_g (debug_ s) (heap s).

(** [void seqno_unlock ()] *)
Definition seqno_unlock (s : store) : store :=
  mkStore (this s) (max_size_ s) (size_ s) (allocd_ s) (seqno2ptr_ s)
          (SEQNO_MAX D) (debug_ s) (heap s).

(** [size_t _allocd () const] *)
Definition _allocd (s : store) : Z := size_ s.

(** The calls a user of the store can make between [seqno_lock] and
    [seqno_unlock]. *)
Inductive call : Type :=
| CallMalloc (sys : c_block) (size : Z)
| CallRealloc (sys : c_block) (ptr size : Z)
| CallFree (bh : Z)
| CallRepossess (bh : Z)
| CallDiscard (bh : Z)
| CallSetMaxSize (size : Z).

Definition do_call (c : call) (s : store) : outcome store :=
  match c with
  | CallMalloc sys size => r ← malloc sys size s; mret (snd r)
  | CallRealloc sys ptr size => r ← realloc sys ptr size s; mret (snd r)
  | CallFree bh => free bh s
  | CallRepossess bh => repossess bh s
  | CallDiscard bh => discard bh s
  | CallSetMaxSize size => mret (set_max_size size s)
  end.

Fixpoint do_calls (cs : list call) (s : store) : outcome store :=
  match cs with
  | [] => mret s
  | c :: cs' => s' ← do_call c s; do_calls cs' s'
  end.

(** ** Facts about the single operations *)

Lemma discard_Returns bh s s' :
  discard bh s = Returns s' ->
  exists b, heap s !! bh = Some b /\
    BH_is_released (header b) = true /\
    bh_seqno_g (header b) < seqno_locked_ s /\
    s' = set_heap (delete bh (heap s))
           (set_allocd_ (allocd_ s ∖ {[bh]})
             (set_size_ (to_size_t (size_ s - bh_size (header b))) s)).
Proof.
  unfold discard. destruct (heap s !! bh) as [b|]; [|discriminate].
  intros H. exists b. split; [reflexivity|].
  destruct (BH_is_released (header b)); [|discriminate].
  destruct (bh_seqno_g (header b) <? seqno_locked_ s) eqn:E; [|discriminate].
  apply Z.ltb_lt in E. simpl in H. injection H as <-. auto.
Qed.

Lemma discard_seqno_locked bh s s' :
  discard bh s = Returns s' -> seqno_locked_ s' = seqno_locked_ s.
Proof.
  intros H. apply discard_Returns in H as (b & _ & _ & _ & ->). reflexivity.
Qed.

Lemma free_Returns bh s s' :
  free bh s = Returns s' ->
  exists b, heap s !! bh = Some b /\
    (if SEQNO_NONE D =? bh_seqno_g (header b)
     then discard bh s = Returns s' else s' = s).
Proof.
  unfold free. destruct (heap s !! bh) as [b|]; [|discriminate].
  intros H. exists b. split; [reflexivity|].
  repeat (apply bind_Returns in H as (? & _ & H)).
  destruct (SEQNO_NONE D =? bh_seqno_g (header b)); [exact H|].
  injection H as <-. reflexivity.
Qed.

Lemma free_seqno_locked bh s s' :
  free bh s = Returns s' -> seqno_locked_ s' = seqno_locked_ s.
Proof.
  intros H. apply free_Returns in H as (b & _ & H).
  destruct (SEQNO_NONE D =? bh_seqno_g (header b)).
  - eapply discard_seqno_locked, H.
  - subst. reflexivity.
Qed.

Lemma repossess_Returns bh s s' : repossess bh s = Returns s' -> s' = s.
Proof.
  unfold repossess. destruct (heap s !! bh); [|discriminate].
  intros H. repeat (apply bind_Returns in H as (? & _ & H)).
  injection H as <-. reflexivity.
Qed.

Lemma malloc_Returns sys size s r :
  malloc sys size s = Returns r ->
  assert_size D size = true /\
  (if max_size_ s <? size then r = (0, s)
   else
     let s1 := snd (have_free_space s size) in
     if negb (fst (have_free_space s size)) then r = (0, s1)
     else
       to_size_t (size_ s1 + size) <= max_size_ s1 /\
       if negb (c_ptr sys =? 0) then
         r = (c_ptr sys + sizeof_BH D,
              set_size_ (to_size_t (size_ s1 + size))
                (set_heap
                   (<[c_ptr sys := mkBuffer
                        (mkBH size (SEQNO_NONE D) 0 (BUFFER_IN_MEM D)
                              (this s1))
                        (c_bytes sys)]> (heap s1))
                   (set_allocd_ ({[c_ptr sys]} ∪ allocd_ s1) s1)))
       else r = (0, s1)).
Proof.
  unfold malloc. intros H.
  apply bind_Returns in H as (u & Ha & H). apply assert_Returns in Ha.
  split; [exact Ha|].
  destruct (max_size_ s <? size); [injection H as <-; reflexivity|].
  destruct (have_free_space s size) as [ok s1]; simpl.
  destruct ok; simpl in *; [|injection H as <-; reflexivity].
  apply bind_Returns in H as (u' & Hb & H). apply assert_Returns in Hb.
  apply Z.leb_le in Hb. split; [exact Hb|].
  destruct (c_ptr sys =? 0); simpl in *; injection H as <-; reflexivity.
Qed.

Section LockKept.

(** The lock is a private member that only [seqno_lock] and [seqno_unlock]
    assign: [have_free_space] leaves it alone. *)
Hypothesis have_free_space_lock :
  forall s n, seqno_locked_ (snd (have_free_space s n)) = seqno_locked_ s.

Lemma malloc_seqno_locked sys size s r :
  malloc sys size s = Returns r -> seqno_locked_ (snd r) = seqno_locked_ s.
Proof.
  intros H. apply malloc_Returns in H as [_ H].
  destruct (max_size_ s <? size); [subst; reflexivity|].
  simpl in H.
  destruct (negb (fst (have_free_space s size)));
    [subst; apply have_free_space_lock|].
  destruct H as [_ H].
  destruct (negb (c_ptr sys =? 0)); subst; simpl; apply have_free_space_lock.
Qed.

Lemma realloc_seqno_locked sys ptr size s r :
  realloc sys ptr size s = Returns r -> seqno_locked_ (snd r) = seqno_locked_ s.
Proof.
  unfold realloc. destruct (ptr =? 0); [apply malloc_seqno_locked|].
  destruct (heap s !! ptr2BH ptr) as [b|]; [|discriminate].
  intros H. apply bind_Returns in H as (u & _ & H).
  destruct (size =? 0).
  { apply bind_Returns in H as (s' & Hf & H). injection H as <-.
    simpl. eapply free_seqno_locked, Hf. }
  destruct (max_size_ s <? size); [injection H as <-; reflexivity|].
  pose proof (have_free_space_lock s
    (to_size_type (to_diff_type (size - bh_size (header b))))) as Hl.
  destruct (have_free_space s _) as [ok s1]; simpl in Hl.
  destruct ok; simpl in H; [|injection H as <-; exact Hl].
  apply bind_Returns in H as (u' & _ & H).
  destruct (heap s1 !! ptr2BH ptr) as [b1|]; [|discriminate].
  destruct (c_ptr sys =? 0); simpl in H.
  - apply bind_Returns in H as (u'' & _ & H). injection H as <-. exact Hl.
  - apply bind_Returns in H as (u'' & _ & H). injection H as <-. exact Hl.
Qed.

Lemma do_call_seqno_locked c s s' :
  do_call c s = Returns s' -> seqno_locked_ s' = seqno_locked_ s.
Proof.
  destruct c; simpl; intros H.
  - apply bind_Returns in H as (r & Hm & H). injection H as <-.
    eapply malloc_seqno_locked, Hm.
  - apply bind_Returns in H as (r & Hm & H). injection H as <-.
    eapply realloc_seqno_locked, Hm.
  - eapply free_seqno_locked, H.
  - apply repossess_Returns in H as ->. reflexivity.
  - eapply discard_seqno_locked, H.
  - injection H as <-. reflexivity.
Qed.

Lemma do_calls_seqno_locked cs : forall s s',
  do_calls cs s = Returns s' -> seqno_locked_ s' = seqno_locked_ s.
Proof.
  induction cs as [|c cs IH]; simpl; intros s s' H.
  - injection H as <-. reflexivity.
  - apply bind_Returns in H as (s1 & Hc & H).
    rewrite (IH _ _ H). eapply do_call_seqno_locked, Hc.
Qed.

End LockKept.

(** ** The claims about MemStore *)

(** C4. A buffer with an assigned global seqno that has been released goes
    through [free] and then [repossess] with nothing changed: both calls
    return, the store is the same store (so the header and the payload bytes
    of the buffer, [size_] and [allocd_] are what they were), and the
    seqno-to-pointer index still maps the seqno to the buffer. *)
Theorem free_repossess_leaves_buffer (bh : Z) (s : store) (b : buffer) :
  heap s !! bh = Some b ->
  bh_seqno_g (header b) <> SEQNO_NONE D ->
  BH_is_released (header b) = true ->
  0 < bh_size (header b) <= size_ s ->
  bh_store (header b) = BUFFER_IN_MEM D ->
  bh_ctx (header b) = this s ->
  seqno2ptr_ s !! bh_seqno_g (header b) = Some (BH2ptr bh) ->
  exists s1 s2,
    free bh s = Returns s1 /\ repossess bh s1 = Returns s2 /\
    s2 = s /\
    heap s2 !! bh = Some b /\
    size_ s2 = size_ s /\
    allocd_ s2 = allocd_ s /\
    seqno2ptr_ s2 !! bh_seqno_g (header b) = Some (BH2ptr bh).
Proof.
  intros Hb Hseq Hrel [Hpos Hle] Hst Hctx Hidx.
  assert (Hfree : free bh s = Returns s).
  { unfold free. rewrite Hb.
    rewrite assert_true_bind by (apply Z.ltb_lt; exact Hpos).
    rewrite assert_true_bind by (apply Z.leb_le; exact Hle).
    rewrite assert_true_bind by (apply Z.eqb_eq; exact Hst).
    rewrite assert_true_bind by (apply Z.eqb_eq; exact Hctx).
    destruct (SEQNO_NONE D =? bh_seqno_g (header b)) eqn:E; [|reflexivity].
    apply Z.eqb_eq in E. congruence. }
  assert (Hrep : repossess bh s = Returns s).
  { unfold repossess. rewrite Hb.
    rewrite assert_true_bind by (apply Z.ltb_lt; exact Hpos).
    rewrite assert_true_bind
      by (apply negb_true_iff, Z.eqb_neq; exact Hseq).
    rewrite assert_true_bind by (apply Z.eqb_eq; exact Hst).
    rewrite assert_true_bind by (apply Z.eqb_eq; exact Hctx).
    rewrite assert_true_bind by exact Hrel.
    reflexivity. }
  exists s, s. repeat split; assumption.
Qed.

(** C5. Between [seqno_lock (seqno)] and [seqno_unlock], that is after any
    sequence of the other calls, [discard] of a live buffer returns only if
    the buffer's global seqno is strictly below [seqno]; for a buffer with
    seqno >= [seqno] the assertion stops the call, and [free] does not
    reclaim it either. *)
Theorem discard_respects_seqno_lock (seqno : Z) (cs : list call)
    (s s1 : store) (bh : Z) (b : buffer) :
  (forall s n, seqno_locked_ (snd (have_free_space s n)) = seqno_locked_ s) ->
  do_calls cs (seqno_lock seqno s) = Returns s1 ->
  heap s1 !! bh = Some b ->
  seqno_locked_ s1 = seqno /\
  (forall s2, discard bh s1 = Returns s2 -> bh_seqno_g (header b) < seqno) /\
  (seqno <= bh_seqno_g (header b) ->
     discard bh s1 = Aborted /\
     forall s2, free bh s1 = Returns s2 -> heap s2 !! bh = Some b) /\
  (bh_seqno_g (header b) < seqno -> BH_is_released (header b) = true ->
     exists s2, discard bh s1 = Returns s2 /\ heap s2 !! bh = None).
Proof.
  intros Hfs Hrun Hb.
  assert (Hl : seqno_locked_ s1 = seqno).
  { rewrite (do_calls_seqno_locked Hfs _ _ _ Hrun). reflexivity. }
  split; [exact Hl|]. split; [|split].
  - intros s2 H. apply discard_Returns in H as (b' & Hb' & _ & Hlt & _).
    rewrite Hb in Hb'. injection Hb' as <-. rewrite Hl in Hlt. exact Hlt.
  - intros Hge.
    assert (Hd : discard bh s1 = Aborted).
    { unfold discard. rewrite Hb.
      destruct (BH_is_released (header b)); [|reflexivity].
      rewrite assert_true_bind by reflexivity.
      apply assert_false_bind. apply Z.ltb_ge. rewrite Hl. exact Hge. }
    split; [exact Hd|].
    intros s2 H. apply free_Returns in H as (b' & Hb' & H).
    rewrite Hb in Hb'. injection Hb' as <-.
    destruct (SEQNO_NONE D =? bh_seqno_g (header b)).
    + rewrite Hd in H. discriminate.
    + subst s2. exact Hb.
  - intros Hlt Hrel. unfold discard. rewrite Hb, Hrel.
    rewrite assert_true_bind by reflexivity.
    rewrite assert_true_bind by (apply Z.ltb_lt; rewrite Hl; exact Hlt).
    eexists. split; [reflexivity|]. simpl. apply lookup_delete_eq.
Qed.

(** C3, as the code has it.  [free] of a buffer with an assigned global
    seqno never deallocates: whenever it returns, the store, and with it the
    header (whose released mark is the caller's to set), the payload and the
    tracking set, is untouched; and it does return when its assertions hold.
    [free] of a buffer without a global seqno is [discard] of it.
    [discard] of a released buffer whose seqno is below the lock reclaims
    the block, takes it out of [allocd_] and takes its size off [size_]. *)
Theorem free_keeps_discard_reclaims (bh : Z) (s : store) (b : buffer) :
  heap s !! bh = Some b ->
  (bh_seqno_g (header b) <> SEQNO_NONE D ->
     (forall s', free bh s = Returns s' -> s' = s /\ heap s' !! bh = Some b) /\
     (0 < bh_size (header b) <= size_ s ->
      bh_store (header b) = BUFFER_IN_MEM D ->
      bh_ctx (header b) = this s ->
      free bh s = Returns s)) /\
  (bh_seqno_g (header b) = SEQNO_NONE D ->
   0 < bh_size (header b) <= size_ s ->
   bh_store (header b) = BUFFER_IN_MEM D ->
   bh_ctx (header b) = this s ->
   free bh s = discard bh s) /\
  (BH_is_released (header b) = true ->
   bh_seqno_g (header b) < seqno_locked_ s ->
   exists s', discard bh s = Returns s' /\
     heap s' !! bh = None /\
     (bh ∉ allocd_ s') /\
     allocd_ s' = allocd_ s ∖ {[bh]} /\
     size_ s' = to_size_t (size_ s - bh_size (header b))).
Proof using D.
  intros Hb. split.
  - intros Hseq.
    assert (E : (SEQNO_NONE D =? bh_seqno_g (header b)) = false).
    { apply Z.eqb_neq. intros Heq. apply Hseq. symmetry. exact Heq. }
    split.
    + intros s' H. apply free_Returns in H as (b' & Hb' & H).
      rewrite Hb in Hb'. injection Hb' as <-. rewrite E in H.
      subst s'. split; [reflexivity | exact Hb].
    + intros [Hpos Hle] Hst Hctx. unfold free. rewrite Hb.
      rewrite assert_true_bind by (apply Z.ltb_lt; exact Hpos).
      rewrite assert_true_bind by (apply Z.leb_le; exact Hle).
      rewrite assert_true_bind by (apply Z.eqb_eq; exact Hst).
      rewrite assert_true_bind by (apply Z.eqb_eq; exact Hctx).
      rewrite E. reflexivity.
  - split.
    { intros Hseq [Hpos Hle] Hst Hctx. unfold free. rewrite Hb.
      rewrite assert_true_bind by (apply Z.ltb_lt; exact Hpos).
      rewrite assert_true_bind by (apply Z.leb_le; exact Hle).
      rewrite assert_true_bind by (apply Z.eqb_eq; exact Hst).
      rewrite assert_true_bind by (apply Z.eqb_eq; exact Hctx).
      rewrite Hseq, Z.eqb_refl. reflexivity. }
    intros Hrel Hlt. unfold discard. rewrite Hb, Hrel.
    rewrite assert_true_bind by reflexivity.
    rewrite assert_true_bind by (apply Z.ltb_lt; exact Hlt).
    eexists. split; [reflexivity|]. simpl.
    split; [apply lookup_delete_eq|].
    split; [|split; reflexivity].
    rewrite elem_of_difference, elem_of_singleton.
    intros [_ Hn]. apply Hn. reflexivity.
Qed.

Lemma reinsert_same (bh : Z) (s : store) :
  bh ∈ allocd_ s ->
  set_allocd_ ({[bh]} ∪ allocd_ (set_allocd_ (allocd_ s ∖ {[bh]}) s))
              (set_allocd_ (allocd_ s ∖ {[bh]}) s) = s.
Proof.
  intros Hin. destruct s as [t m sz al idx lk dbg hp]; simpl in *.
  unfold set_allocd_; simpl. f_equal.
  apply set_eq. intros x.
  rewrite elem_of_union, elem_of_difference, elem_of_singleton.
  destruct (decide (x = bh)) as [->|Hne]; tauto.
Qed.

(** C1, as the code has it.  [realloc] asserts that the buffer has no
    global seqno yet.  For such a buffer and a non-zero new size that passes
    the size checks, if [::realloc] answers null then [realloc] returns
    null, the heap is the one [have_free_space] left (the block is still
    allocated, header and payload as they were), the original address is in
    [allocd_] again, and [size_] is not changed; if the address was tracked
    before, the store is exactly the one [have_free_space] left. *)
Theorem realloc_failure_keeps_original (sys : c_block) (ptr size : Z)
    (s s1 : store) (b b1 : buffer) :
  ptr <> 0 ->
  heap s !! ptr2BH ptr = Some b ->
  bh_seqno_g (header b) = SEQNO_NONE D ->
  0 < size <= max_size_ s ->
  have_free_space s
    (to_size_type (to_diff_type (size - bh_size (header b)))) = (true, s1) ->
  to_size_t (size_ s1 + to_diff_type (size - bh_size (header b)))
    <= max_size_ s1 ->
  heap s1 !! ptr2BH ptr = Some b1 ->
  c_ptr sys = 0 ->
  exists s',
    realloc sys ptr size s = Returns (0, s') /\
    heap s' = heap s1 /\
    heap s' !! ptr2BH ptr = Some b1 /\
    ptr2BH ptr ∈ allocd_ s' /\
    allocd_ s' = {[ptr2BH ptr]} ∪ (allocd_ s1 ∖ {[ptr2BH ptr]}) /\
    size_ s' = size_ s1 /\
    max_size_ s' = max_size_ s1 /\
    (ptr2BH ptr ∈ allocd_ s1 -> s' = s1).
Proof.
  intros Hptr Hb Hseq [Hpos Hmax] Hfs Hsz Hb1 Hsys.
  eexists. split.
  - unfold realloc.
    replace (ptr =? 0) with false by (symmetry; apply Z.eqb_neq; exact Hptr).
    rewrite Hb.
    rewrite assert_true_bind by (apply Z.eqb_eq; congruence).
    replace (size =? 0) with false by (symmetry; apply Z.eqb_neq; lia).
    replace (max_size_ s <? size) with false
      by (symmetry; apply Z.ltb_ge; exact Hmax).
    cbv zeta. rewrite Hfs. simpl negb. cbv iota.
    rewrite assert_true_bind by (apply Z.leb_le; exact Hsz).
    simpl heap. rewrite Hb1, Hsys. simpl negb. cbv iota.
    rewrite assert_true_bind by (apply Z.ltb_lt; exact Hpos).
    reflexivity.
  - simpl. split; [reflexivity|]. split; [exact Hb1|].
    split; [apply elem_of_union_l, elem_of_singleton; reflexivity|].
    split; [reflexivity|]. split; [reflexivity|]. split; [reflexivity|].
    apply reinsert_same.
Qed.

(** C2, as the code has it.  With [have_free_space] keeping its promise
    (the one [malloc] asserts), [malloc (size)] returns; it returns null
    exactly when [size] exceeds [max_size_], [have_free_space] says no, or
    [::malloc] itself is out of memory.  Otherwise the pointer is
    [sizeof(BufferHeader)] past the block's address, the header there holds
    [size], [SEQNO_NONE], flags 0, the store id and the store's address, the
    block is tracked, and [size_] has grown by [size] (from what
    [have_free_space] left) and is within [max_size_]. *)
Theorem malloc_null_or_header (sys : c_block) (size : Z) (s : store) :
  assert_size D size = true ->
  0 < sizeof_BH D ->
  0 <= c_ptr sys ->
  (fst (have_free_space s size) = true ->
   to_size_t (size_ (snd (have_free_space s size)) + size)
     <= max_size_ (snd (have_free_space s size))) ->
  let s1 := snd (have_free_space s size) in
  exists p s',
    malloc sys size s = Returns (p, s') /\
    (p = 0 <->
       max_size_ s < size \/ fst (have_free_space s size) = false \/
       c_ptr sys = 0) /\
    (p = 0 -> s' = s \/ s' = s1) /\
    (p <> 0 ->
       ptr2BH p = c_ptr sys /\
       heap s' !! ptr2BH p =
         Some (mkBuffer (mkBH size (SEQNO_NONE D) 0 (BUFFER_IN_MEM D)
                              (this s'))
                        (c_bytes sys)) /\
       ptr2BH p ∈ allocd_ s' /\
       size_ s' = to_size_t (size_ s1 + size) /\
       (0 <= size_ s1 + size < 2 ^ 64 -> size_ s' = size_ s1 + size) /\
       size_ s' <= max_size_ s').
Proof.
  intros Has Hbh Hsys Hpost s1. unfold malloc.
  rewrite assert_true_bind by exact Has.
  destruct (max_size_ s <? size) eqn:Emax.
  { apply Z.ltb_lt in Emax. exists 0, s. split; [reflexivity|].
    split; [tauto|]. split; [tauto|]. intros H; contradiction H; reflexivity. }
  apply Z.ltb_ge in Emax. subst s1.
  destruct (have_free_space s size) as [ok s1]; simpl in *.
  destruct ok; simpl.
  2:{ exists 0, s1. split; [reflexivity|]. split; [tauto|]. split; [tauto|].
      intros H; contradiction H; reflexivity. }
  specialize (Hpost eq_refl).
  rewrite assert_true_bind by (apply Z.leb_le; exact Hpost).
  destruct (c_ptr sys =? 0) eqn:E; simpl.
  { apply Z.eqb_eq in E. exists 0, s1. split; [reflexivity|].
    split; [tauto|]. split; [tauto|]. intros H; contradiction H; reflexivity. }
  apply Z.eqb_neq in E. eexists _, _. split; [reflexivity|].
  split; [|split].
  - split; [lia|]. intros [H|[H|H]]; [lia | discriminate | lia].
  - lia.
  - intros _. unfold ptr2BH. simpl.
    replace (c_ptr sys + sizeof_BH D - sizeof_BH D) with (c_ptr sys) by lia.
    split; [reflexivity|].
    split; [apply lookup_insert_eq|].
    split; [apply elem_of_union_l, elem_of_singleton; reflexivity|].
    split; [reflexivity|].
    split; [apply to_size_t_small | exact Hpost].
Qed.

End Model.

(** ** Concrete stores *)

(** Values to run the model with: a 24-byte header, [SEQNO_NONE] 0,
    [SEQNO_MAX] the largest 64-bit signed number, the released bit 1, store
    id 0, 32-bit sizes, no limit from [assert_size]. *)
Definition sample_decls : decls :=
  mkDecls 24 0 (2 ^ 63 - 1) 1 0 32 (fun _ => true).

(** A [have_free_space] that only compares and discards nothing. *)
Definition plain_have_free_space (s : store) (size : Z) : bool * store :=
  (to_size_t (size_ s + size) <=? max_size_ s, s).

Definition sample_payload : list Byte.byte :=
  [Byte.x67; Byte.x61; Byte.x6c; Byte.x65; Byte.x72; Byte.x61].

(** One 64-byte buffer at address 1000 in a store at address 4096 of at most
    1000 bytes; the buffer has seqno [seqno] and flags [flags]. *)
Definition one_buffer (seqno flags : Z) : buffer :=
  mkBuffer (mkBH 64 seqno flags 0 4096) sample_payload.

Definition one_buffer_store (seqno flags : Z) : store :=
  mkStore 4096 1000 64 {[1000]} {[seqno := 1024]} (2 ^ 63 - 1) 0
          {[1000 := one_buffer seqno flags]}.

Definition empty_store : store :=
  MemStore sample_decls 4096 1000 ∅ 0 ∅.

Lemma free_repossess_leaves_buffer_witness :
  exists s1 s2,
    free sample_decls 1000 (one_buffer_store 5 1) = Returns s1 /\
    repossess sample_decls 1000 s1 = Returns s2 /\
    s2 = one_buffer_store 5 1 /\
    heap s2 !! 1000 = Some (one_buffer 5 1) /\
    size_ s2 = 64 /\
    allocd_ s2 = {[1000]} /\
    seqno2ptr_ s2 !! 5 = Some 1024.
Proof.
  apply (free_repossess_leaves_buffer sample_decls 1000
           (one_buffer_store 5 1) (one_buffer 5 1)).
  - reflexivity.
  - simpl. lia.
  - reflexivity.
  - simpl. lia.
  - reflexivity.
  - reflexivity.
  - reflexivity.
Defined.

Lemma discard_respects_seqno_lock_witness :
  seqno_locked_ (seqno_lock 5 (one_buffer_store 5 1)) = 5 /\
  (forall s2,
     discard sample_decls 1000 (seqno_lock 5 (one_buffer_store 5 1))
       = Returns s2 -> 5 < 5) /\
  (5 <= 5 ->
     discard sample_decls 1000 (seqno_lock 5 (one_buffer_store 5 1))
       = Aborted /\
     forall s2,
       free sample_decls 1000 (seqno_lock 5 (one_buffer_store 5 1))
         = Returns s2 -> heap s2 !! 1000 = Some (one_buffer 5 1)) /\
  (5 < 5 -> BH_is_released sample_decls (header (one_buffer 5 1)) = true ->
     exists s2,
       discard sample_decls 1000 (seqno_lock 5 (one_buffer_store 5 1))
         = Returns s2 /\ heap s2 !! 1000 = None).
Proof.
  apply (discard_respects_seqno_lock sample_decls plain_have_free_space 5
           [CallRepossess 1000; CallSetMaxSize 1000]
           (one_buffer_store 5 1)
           (seqno_lock 5 (one_buffer_store 5 1)) 1000 (one_buffer 5 1)).
  - intros s n. reflexivity.
  - reflexivity.
  - reflexivity.
Defined.

Lemma free_keeps_discard_reclaims_witness :
  free sample_decls 1000 (one_buffer_store 5 1)
    = Returns (one_buffer_store 5 1) /\
  exists s',
    discard sample_decls 1000 (one_buffer_store 5 1) = Returns s' /\
    heap s' !! 1000 = None /\ size_ s' = 0.
Proof.
  destruct (free_keeps_discard_reclaims sample_decls 1000
              (one_buffer_store 5 1) (one_buffer 5 1) eq_refl)
    as (Hfree & _ & Hdiscard).
  split.
  - apply Hfree; simpl; [lia | lia | reflexivity | reflexivity].
  - destruct Hdiscard as (s' & Hd & Hh & _ & _ & Hs);
      [reflexivity | simpl; lia |].
    exists s'. split; [exact Hd|]. split; [exact Hh|]. exact Hs.
Defined.

(** C3 as the specification words it does not hold.  A released buffer
    without a global seqno is reclaimed by [free] at once, and [free] of a
    buffer that has a seqno returns without setting the released bit. *)
Lemma free_neither_marks_nor_always_keeps :
  (exists s',
     free sample_decls 1000 (one_buffer_store 0 1) = Returns s' /\
     heap s' !! 1000 = None /\ allocd_ s' = ∅) /\
  (exists s' b',
     free sample_decls 1000 (one_buffer_store 5 0) = Returns s' /\
     heap s' !! 1000 = Some b' /\
     BH_is_released sample_decls (header b') = false).
Proof.
  split.
  - eexists. split; [reflexivity|]. split; reflexivity.
  - eexists _, _. split; [reflexivity|]. split; reflexivity.
Qed.

Lemma realloc_failure_keeps_original_witness :
  exists s',
    realloc sample_decls plain_have_free_space (mkCBlock 0 []) 1024 128
            (one_buffer_store 0 0) = Returns (0, s') /\
    heap s' !! 1000 = Some (one_buffer 0 0) /\
    1000 ∈ allocd_ s' /\
    size_ s' = 64 /\
    s' = one_buffer_store 0 0.
Proof.
  destruct (realloc_failure_keeps_original sample_decls
              plain_have_free_space (mkCBlock 0 []) 1024 128
              (one_buffer_store 0 0) (one_buffer_store 0 0)
              (one_buffer 0 0) (one_buffer 0 0))
    as (s' & Hr & _ & Hh & Hin & _ & Hs & _ & Heq).
  - lia.
  - reflexivity.
  - reflexivity.
  - simpl. lia.
  - reflexivity.
  - vm_compute. discriminate.
  - reflexivity.
  - reflexivity.
  - exists s'. split; [exact Hr|]. split; [exact Hh|]. split; [exact Hin|].
    split; [exact Hs|]. apply Heq. simpl.
    apply elem_of_singleton. reflexivity.
Defined.

(** C1 as the specification words it does not hold: for a buffer with an
    assigned global seqno the assertion at the head of [realloc] stops the
    call, whatever [::realloc] would have answered. *)
Lemma realloc_of_ordered_buffer_asserts :
  bh_seqno_g (header (one_buffer 5 0)) <> SEQNO_NONE sample_decls /\
  heap (one_buffer_store 5 0) !! 1000 = Some (one_buffer 5 0) /\
  realloc sample_decls plain_have_free_space (mkCBlock 0 []) 1024 128
          (one_buffer_store 5 0) = Aborted.
Proof.
  split; [simpl; lia|]. split; reflexivity.
Qed.

Lemma malloc_null_or_header_witness :
  exists p s',
    malloc sample_decls plain_have_free_space
           (mkCBlock 2000 sample_payload) 64 empty_store = Returns (p, s') /\
    p = 2024 /\
    heap s' !! 2000 =
      Some (mkBuffer (mkBH 64 0 0 0 4096) sample_payload) /\
    size_ s' = 64.
Proof.
  destruct (malloc_null_or_header sample_decls plain_have_free_space
              (mkCBlock 2000 sample_payload) 64 empty_store)
    as (p & s' & Hm & Hnull & _ & Hp).
  - reflexivity.
  - simpl. lia.
  - simpl. lia.
  - intros _. vm_compute. discriminate.
  - assert (E : Returns (p, s') =
                Returns (2024, set_size_ 64
                   (set_heap {[2000 := mkBuffer (mkBH 64 0 0 0 4096)
                                                sample_payload]}
                      (set_allocd_ {[2000]} empty_store))))
      by (rewrite <- Hm; reflexivity).
    injection E as -> ->.
    do 2 eexists. split; [exact Hm|]. split; [reflexivity|].
    split; reflexivity.
Defined.

(** C2 as the specification words it does not hold: with the size within
    [max_size_] and free space at hand, [malloc] still returns null when
    [::malloc] is out of memory. *)
Lemma malloc_null_when_system_out_of_memory :
  malloc sample_decls plain_have_free_space (mkCBlock 0 []) 64 empty_store
    = Returns (0, empty_store) /\
  ~ (max_size_ empty_store < 64) /\
  fst (plain_have_free_space empty_store 64) = true.
Proof.
  split; [reflexivity|]. split; [simpl; lia | reflexivity].
Qed.

(** ** The rest of the class *)

Section Rest.

Variable D : decls.
Variable have_free_space : store -> Z -> bool * store.

(** [::free (p)] for every [p] of [bufs], in turn; freeing an address that
    holds no live block is undefined. *)
Fixpoint free_all (bufs : list Z) (h : gmap Z buffer)
    : outcome (gmap Z buffer) :=
  match bufs with
  | [] => mret h
  | buf :: bufs' =>
      match h !! buf with
      | None => Undefined
      | Some _ => free_all bufs' (delete buf h)
      end
  end.

(** [void reset ()] *)
Definition reset (s : store) : outcome store :=
  h ← free_all (elements (allocd_ s)) (heap s);
  mret (mkStore (this s) (max_size_ s) 0 ∅ (seqno2ptr_ s)
                (seqno_locked_ s) (debug_ s) h).

(** [void set_debug (int const dbg)] *)
Definition set_debug (dbg : Z) (s : store) : store :=
  mkStore (this s) (max_size_ s) (size_ s) (allocd_ s) (seqno2ptr_ s)
          (seqno_locked_ s) (Z.land dbg 1) (heap s).

(** The caller's assignment [bh->flags = flags]. *)
Definition store_flags (bh flags : Z) (s : store) : store :=
  set_heap
    (alter (fun b => mkBuffer (mkBH (bh_size (header b))
                                    (bh_seqno_g (header b)) flags
                                    (bh_store (header b))
                                    (bh_ctx (header b)))
                              (payload b))
           bh (heap s))
    s.

Lemma free_all_spec (bufs : list Z) : forall (h : gmap Z buffer),
  NoDup bufs ->
  (forall a, a ∈ bufs -> is_Some (h !! a)) ->
  exists h',
    free_all bufs h = Returns h' /\
    forall a, h' !! a = if decide (a ∈ bufs) then None else h !! a.
Proof.
  induction bufs as [|buf bufs IH]; intros h Hnd Hlive; simpl.
  - exists h. split; [reflexivity|]. intros a.
    destruct (decide (a ∈ [])) as [Hin|_]; [|reflexivity].
    apply elem_of_nil in Hin. contradiction.
  - apply NoDup_cons in Hnd as [Hnotin Hnd].
    destruct (Hlive buf) as [b Hb]; [apply elem_of_cons; left; reflexivity|].
    rewrite Hb.
    destruct (IH (delete buf h) Hnd) as (h' & Hf & Hh').
    { intros a Ha. rewrite lookup_delete_ne.
      - apply Hlive. apply elem_of_cons. right. exact Ha.
      - intros ->. contradiction. }
    exists h'. split; [exact Hf|]. intros a. rewrite Hh'.
    destruct (decide (a ∈ bufs)) as [Hin|Hnin].
    + rewrite decide_True by (apply elem_of_cons; right; exact Hin).
      reflexivity.
    + destruct (decide (a = buf)) as [->|Hne].
      * rewrite decide_True by (apply elem_of_cons; left; reflexivity).
        apply lookup_delete_eq.
      * rewrite decide_False.
        -- apply lookup_delete_ne. intros E. apply Hne. symmetry. exact E.
        -- rewrite elem_of_cons. intros [E|E]; contradiction.
Qed.

Lemma free_all_dead (bufs : list Z) : forall (h : gmap Z buffer) (a : Z),
  NoDup bufs -> a ∈ bufs -> h !! a = None ->
  free_all bufs h = Undefined.
Proof.
  induction bufs as [|buf bufs IH]; intros h a Hnd Hin Hdead; simpl.
  - apply elem_of_nil in Hin. contradiction.
  - apply NoDup_cons in Hnd as [Hnotin Hnd].
    destruct (h !! buf) as [b|] eqn:Hb; [|reflexivity].
    apply elem_of_cons in Hin as [->|Hin]; [congruence|].
    apply (IH _ a Hnd Hin).
    rewrite lookup_delete_ne; [exact Hdead|]. intros ->. contradiction.
Qed.

(** [reset] frees the tracked blocks and nothing else: it returns when
    every tracked address holds a live block, with [size_] 0, an empty
    tracking set, the tracked blocks gone from the heap and every other
    block in place; with a tracked address that holds no live block the
    [::free] of it is undefined. *)
Theorem reset_frees_what_is_tracked (s : store) :
  ((forall a, a ∈ allocd_ s -> is_Some (heap s !! a)) ->
   exists s',
     reset s = Returns s' /\
     size_ s' = 0 /\ allocd_ s' = ∅ /\
     max_size_ s' = max_size_ s /\ seqno_locked_ s' = seqno_locked_ s /\
     forall a,
       heap s' !! a = if decide (a ∈ allocd_ s) then None else heap s !! a) /\
  (forall a, a ∈ allocd_ s -> heap s !! a = None -> reset s = Undefined).
Proof.
  split.
  - intros Hlive.
    destruct (free_all_spec (elements (allocd_ s)) (heap s)) as (h' & Hf & Hh').
    { apply NoDup_elements. }
    { intros a Ha. apply Hlive. apply elem_of_elements. exact Ha. }
    unfold reset. rewrite Hf. eexists. split; [reflexivity|]. simpl.
    repeat split. intros a. rewrite Hh'.
    destruct (decide (a ∈ allocd_ s)) as [Hin|Hnin].
    + rewrite decide_True by (apply elem_of_elements; exact Hin). reflexivity.
    + rewrite decide_False; [reflexivity|].
      rewrite elem_of_elements. exact Hnin.
  - intros a Hin Hdead. unfold reset.
    rewrite (free_all_dead (elements (allocd_ s)) (heap s) a);
      [reflexivity | apply NoDup_elements | | exact Hdead].
    apply elem_of_elements. exact Hin.
Qed.

(** When [::realloc] finds memory, [realloc] returns the payload pointer
    of the block at its new address; the header there is the old one with
    the new size, the payload keeps its bytes up to the shorter of the two
    sizes, the old address is no longer tracked and (if the block moved) no
    longer live, the new one is tracked, [size_] moves by the difference of
    the sizes, and every other block is where it was. *)
Theorem realloc_moves_block (sys : c_block) (ptr size : Z)
    (s s1 : store) (b b1 : buffer) :
  ptr <> 0 ->
  heap s !! ptr2BH D ptr = Some b ->
  bh_seqno_g (header b) = SEQNO_NONE D ->
  0 < size <= max_size_ s ->
  have_free_space s
    (to_size_type D (to_diff_type D (size - bh_size (header b))))
    = (true, s1) ->
  to_size_t (size_ s1 + to_diff_type D (size - bh_size (header b)))
    <= max_size_ s1 ->
  heap s1 !! ptr2BH D ptr = Some b1 ->
  bh_size (header b1) = bh_size (header b) ->
  c_ptr sys <> 0 ->
  exists s' b',
    realloc D have_free_space sys ptr size s
      = Returns (c_ptr sys + sizeof_BH D, s') /\
    heap s' !! c_ptr sys = Some b' /\
    header b' = set_bh_size size (header b1) /\
    payload b' = take (Z.to_nat (size - sizeof_BH D))
                      (payload b1 ++ c_bytes sys) /\
    (forall n, (n <= length (payload b1))%nat ->
               (n <= Z.to_nat (size - sizeof_BH D))%nat ->
               take n (payload b') = take n (payload b1)) /\
    (c_ptr sys <> ptr2BH D ptr -> heap s' !! ptr2BH D ptr = None) /\
    (forall a, a <> c_ptr sys -> a <> ptr2BH D ptr ->
               heap s' !! a = heap s1 !! a) /\
    allocd_ s' = {[c_ptr sys]} ∪ (allocd_ s1 ∖ {[ptr2BH D ptr]}) /\
    size_ s' = to_size_t (size_ s1
                          + to_diff_type D (size - bh_size (header b))).
Proof.
  intros Hptr Hb Hseq [Hpos Hmax] Hfs Hsz Hb1 Hold Hsys.
  eexists _, _. split.
  - unfold realloc.
    replace (ptr =? 0) with false by (symmetry; apply Z.eqb_neq; exact Hptr).
    rewrite Hb.
    rewrite assert_true_bind by (apply Z.eqb_eq; congruence).
    replace (size =? 0) with false by (symmetry; apply Z.eqb_neq; lia).
    replace (max_size_ s <? size) with false
      by (symmetry; apply Z.ltb_ge; exact Hmax).
    cbv zeta. rewrite Hfs. simpl negb. cbv iota.
    rewrite assert_true_bind by (apply Z.leb_le; exact Hsz).
    simpl heap. rewrite Hb1.
    replace (c_ptr sys =? 0) with false
      by (symmetry; apply Z.eqb_neq; exact Hsys).
    simpl negb. cbv iota.
    rewrite assert_true_bind by (simpl; apply Z.eqb_eq; exact Hold).
    reflexivity.
  - simpl. split; [apply lookup_insert_eq|].
    split; [reflexivity|]. split; [reflexivity|].
    split.
    { intros n Hn1 Hn2. simpl. rewrite take_take, Nat.min_l by lia.
      apply take_app_le. exact Hn1. }
    split.
    { intros Hne. rewrite lookup_insert_ne by exact Hne.
      apply lookup_delete_eq. }
    split.
    { intros a Ha1 Ha2.
      rewrite lookup_insert_ne by (intros E; apply Ha1; symmetry; exact E).
      apply lookup_delete_ne. intros E. apply Ha2. symmetry. exact E. }
    split; reflexivity.
Qed.

(** A buffer fresh from [malloc] carries no released mark, so neither
    [free] nor [discard] accepts it: both stop at an assertion until the
    caller has marked the header. *)
Theorem fresh_buffer_is_not_freeable (sys : c_block) (size p : Z)
    (s s' : store) :
  malloc D have_free_space sys size s = Returns (p, s') ->
  p <> 0 ->
  bh_flags <$> (header <$> heap s' !! ptr2BH D p) = Some 0 /\
  free D (ptr2BH D p) s' = Aborted /\
  discard D (ptr2BH D p) s' = Aborted.
Proof.
  intros Hm Hp. apply malloc_Returns in Hm as [_ Hm].
  destruct (max_size_ s <? size).
  { injection Hm as -> _. contradiction Hp; reflexivity. }
  simpl in Hm. destruct (negb (fst (have_free_space s size))).
  { injection Hm as -> _. contradiction Hp; reflexivity. }
  destruct Hm as [_ Hm]. destruct (negb (c_ptr sys =? 0)).
  2:{ injection Hm as -> _. contradiction Hp; reflexivity. }
  injection Hm as -> ->. unfold ptr2BH.
  replace (c_ptr sys + sizeof_BH D - sizeof_BH D) with (c_ptr sys) by lia.
  assert (Hd : forall s0 b0,
            heap s0 !! c_ptr sys = Some b0 -> bh_flags (header b0) = 0 ->
            discard D (c_ptr sys) s0 = Aborted).
  { intros s0 b0 Hb0 Hfl. unfold discard. rewrite Hb0.
    unfold BH_is_released. rewrite Hfl, Z.land_0_l. reflexivity. }
  simpl. rewrite lookup_insert_eq. split; [reflexivity|].
  split.
  - unfold free. simpl. rewrite lookup_insert_eq. simpl.
    destruct (0 <? size); [|reflexivity].
    destruct (size <=? _); [|reflexivity].
    rewrite !Z.eqb_refl. simpl.
    eapply Hd; [apply lookup_insert_eq | reflexivity].
  - eapply Hd; [apply lookup_insert_eq | reflexivity].
Qed.

(** [malloc] and [free] undo each other: a buffer that [malloc] placed at a
    fresh address, once the caller has marked it released, is taken by
    [free] and leaves the store exactly as [have_free_space] had left it
    before the allocation: heap, tracking set and [size_]. *)
Theorem malloc_free_round_trip (sys : c_block) (size p flags : Z)
    (s s' : store) :
  malloc D have_free_space sys size s = Returns (p, s') ->
  p <> 0 ->
  let s1 := snd (have_free_space s size) in
  heap s1 !! c_ptr sys = None ->
  c_ptr sys ∉ allocd_ s1 ->
  0 <= size_ s1 -> 0 < size -> size_ s1 + size < 2 ^ 64 ->
  Z.land flags (BUFFER_RELEASED D) <> 0 ->
  SEQNO_NONE D < seqno_locked_ s1 ->
  free D (ptr2BH D p) (store_flags (ptr2BH D p) flags s') = Returns s1.
Proof.
  intros Hm Hp s1 Hfresh Huntracked Hs0 Hsize Hfit Hrel Hlock.
  apply malloc_Returns in Hm as [_ Hm].
  destruct (max_size_ s <? size).
  { injection Hm as -> _. contradiction Hp; reflexivity. }
  simpl in Hm. fold s1 in Hm. destruct (negb (fst (have_free_space s size))).
  { injection Hm as -> _. contradiction Hp; reflexivity. }
  destruct Hm as [_ Hm]. destruct (negb (c_ptr sys =? 0)).
  2:{ injection Hm as -> _. contradiction Hp; reflexivity. }
  injection Hm as -> ->. unfold ptr2BH.
  replace (c_ptr sys + sizeof_BH D - sizeof_BH D) with (c_ptr sys) by lia.
  rewrite (to_size_t_small (size_ s1 + size)) by lia.
  unfold free, store_flags. simpl. rewrite lookup_alter_eq, lookup_insert_eq.
  simpl.
  rewrite assert_true_bind by (apply Z.ltb_lt; exact Hsize).
  rewrite assert_true_bind by (apply Z.leb_le; lia).
  rewrite !Z.eqb_refl. simpl.
  unfold discard. simpl. rewrite lookup_alter_eq, lookup_insert_eq. simpl.
  unfold BH_is_released. simpl.
  replace (Z.land flags (BUFFER_RELEASED D) =? 0) with false
    by (symmetry; apply Z.eqb_neq; exact Hrel).
  simpl.
  rewrite assert_true_bind by (apply Z.ltb_lt; exact Hlock).
  simpl. f_equal. destruct s1 as [t m sz al idx lk dbg hp]. simpl in *.
  unfold set_heap, set_allocd_, set_size_. simpl. f_equal.
  - replace (sz + size - size) with sz by lia. apply to_size_t_small. lia.
  - apply set_eq. intros x.
    rewrite elem_of_difference, elem_of_union, elem_of_singleton.
    split; [intros [[->|H] Hn]; [contradiction Hn; reflexivity | exact H]|].
    intros H. split; [right; exact H|]. intros ->. contradiction.
  - apply map_eq. intros a. destruct (decide (a = c_ptr sys)) as [->|Hne].
    + rewrite lookup_delete_eq. symmetry. exact Hfresh.
    + rewrite lookup_delete_ne by (intros E; apply Hne; symmetry; exact E).
      rewrite lookup_alter_ne by (intros E; apply Hne; symmetry; exact E).
      apply lookup_insert_ne. intros E. apply Hne. symmetry. exact E.
Qed.

End Rest.

Lemma reset_frees_what_is_tracked_witness :
  exists s',
    reset (one_buffer_store 5 1) = Returns s' /\
    size_ s' = 0 /\ allocd_ s' = ∅ /\ heap s' !! 1000 = None.
Proof.
  destruct (reset_frees_what_is_tracked (one_buffer_store 5 1)) as [Hok _].
  destruct Hok as (s' & Hr & Hs & Ha & _ & _ & Hh).
  - intros a Ha. simpl in Ha. apply elem_of_singleton in Ha as ->.
    exists (one_buffer 5 1). reflexivity.
  - exists s'. split; [exact Hr|]. split; [exact Hs|]. split; [exact Ha|].
    rewrite (Hh 1000).
    apply decide_True. simpl. apply elem_of_singleton. reflexivity.
Defined.

Lemma realloc_moves_block_witness :
  exists s' b',
    realloc sample_decls plain_have_free_space
            (mkCBlock 2000 sample_payload) 1024 128 (one_buffer_store 0 0)
      = Returns (2024, s') /\
    heap s' !! 2000 = Some b' /\
    bh_size (header b') = 128 /\
    take 6 (payload b') = sample_payload /\
    heap s' !! 1000 = None /\
    allocd_ s' = {[2000]} ∪ ({[1000]} ∖ {[1000]}) /\
    size_ s' = 128.
Proof.
  destruct (realloc_moves_block sample_decls plain_have_free_space
              (mkCBlock 2000 sample_payload) 1024 128
              (one_buffer_store 0 0) (one_buffer_store 0 0)
              (one_buffer 0 0) (one_buffer 0 0))
    as (s' & b' & Hr & Hb & Hh & _ & Hp & Hold & _ & Ha & Hs).
  - lia.
  - reflexivity.
  - reflexivity.
  - simpl. lia.
  - reflexivity.
  - vm_compute. discriminate.
  - reflexivity.
  - reflexivity.
  - simpl. lia.
  - exists s', b'. split; [exact Hr|]. split; [exact Hb|].
    split; [rewrite Hh; reflexivity|].
    split; [rewrite (Hp 6%nat); [reflexivity | simpl; lia | simpl; lia]|].
    split; [apply Hold; simpl; unfold ptr2BH; simpl; lia|].
    split; [exact Ha | exact Hs].
Defined.

Lemma fresh_buffer_is_not_freeable_witness :
  exists s',
    malloc sample_decls plain_have_free_space
           (mkCBlock 2000 sample_payload) 64 empty_store
      = Returns (2024, s') /\
    free sample_decls 2000 s' = Aborted /\
    discard sample_decls 2000 s' = Aborted.
Proof.
  eexists. split; [reflexivity|].
  apply (fresh_buffer_is_not_freeable sample_decls plain_have_free_space
           (mkCBlock 2000 sample_payload) 64 2024 empty_store).
  - reflexivity.
  - lia.
Defined.

Lemma malloc_free_round_trip_witness :
  exists s',
    malloc sample_decls plain_have_free_space
           (mkCBlock 2000 sample_payload) 64 empty_store
      = Returns (2024, s') /\
    free sample_decls 2000 (store_flags 2000 1 s') = Returns empty_store.
Proof.
  eexists. split; [reflexivity|].
  apply (malloc_free_round_trip sample_decls plain_have_free_space
           (mkCBlock 2000 sample_payload) 64 2024 1 empty_store).
  - reflexivity.
  - lia.
  - reflexivity.
  - simpl. apply not_elem_of_empty.
  - simpl. lia.
  - lia.
  - simpl. lia.
  - vm_compute. discriminate.
  - vm_compute. reflexivity.
Defined.

End MemStore.

(** * gcs_fifo_lite *)

Module FifoLite.

(** Modelled from the spec: gu_limits.h, which defines the macros
    GU_LONG_MAX and GU_ULONG_MAX, is not among the sources; they are "the
    long-integer limit" and its unsigned counterpart, LONG_MAX and ULONG_MAX
    of the LP64 target. *)
Definition GU_LONG_MAX : Z := 2 ^ 63 - 1.
Definition GU_ULONG_MAX : Z := 2 ^ 64 - 1.

(** [gcs_fifo_lite_t], with the members gcs_fifo_lite.c reads or writes.  A
    condition variable is the list of the threads blocked on it. *)
Record gcs_fifo_lite_t : Type := mkFifo {
  fifo_length : Z;              (* length    *)
  item_size   : Z;
  mask        : Z;
  used        : Z;
  closed      : bool;
  destroyed   : bool;
  put_wait    : Z;
  get_wait    : Z;
  put_cond    : list nat;
  get_cond    : list nat;
  queue       : list Byte.byte
}.

(** [while (l < length) l = l << 1;] run for at most [fuel] iterations;
    [None] when the loop is still running after them. *)
Fixpoint real_length (fuel : nat) (l length : Z) : option Z :=
  match fuel with
  | O => None
  | S fuel' =>
      if l <? length
      then real_length fuel' (to_size_t (Z.shiftl l 1)) length
      else Some l
  end.

(** [gcs_fifo_lite_t* gcs_fifo_lite_create (size_t length, size_t item_size)]

    [calloc_ok] says whether GU_CALLOC finds memory, [gu_malloc] is the
    allocator (null is [None], else the bytes of the fresh block).  The
    result is [None] when the loop does not end within [fuel] iterations,
    [Some None] for a null return. *)
Definition gcs_fifo_lite_create (fuel : nat) (calloc_ok : bool)
    (gu_malloc : Z -> option (list Byte.byte)) (length item_size : Z)
    : option (option gcs_fifo_lite_t) :=
  if (length <? 1) || (item_size <? 1) then Some None
  else
    match real_length fuel 1 length with
    | None => None
    | Some l =>
        if GU_LONG_MAX <? l then Some None
        else if GU_ULONG_MAX <? to_size_t (l * item_size) then Some None
        else if calloc_ok then
          match gu_malloc (to_size_t (l * item_size)) with
          | Some q =>
              Some (Some (mkFifo l item_size (l - 1) 0 false false 0 0
                                 [] [] q))
          | None => Some None
          end
        else Some None
    end.

(** [long gcs_fifo_lite_close (gcs_fifo_lite_t* fifo)]

    [lock_ret] is what [gu_mutex_lock] returns.  The result is the return
    value, the FIFO, and the threads the two broadcasts wake. *)
Definition gcs_fifo_lite_close (lock_ret : Z) (fifo : gcs_fifo_lite_t)
    : Z * gcs_fifo_lite_t * list nat :=
  let ret := lock_ret in
  if ret =? 0 then
    (ret,
     mkFifo (fifo_length fifo) (item_size fifo) (mask fifo) (used fifo)
            true (destroyed fifo) 0 0 [] [] (queue fifo),
     put_cond fifo ++ get_cond fifo)
  else (ret, fifo, []).

(** [cap] is the least power of two that is at least [n]. *)
Definition least_power_of_two_geq (cap n : Z) : Prop :=
  (exists k, 0 <= k /\ cap = 2 ^ k) /\
  n <= cap /\
  forall j, 0 <= j -> n <= 2 ^ j -> cap <= 2 ^ j.

(** ** The loop *)

Lemma shiftl_pow2 (i : nat) :
  (i < 63)%nat ->
  to_size_t (Z.shiftl (2 ^ Z.of_nat i) 1) = 2 ^ Z.of_nat (S i).
Proof.
  intros Hi. rewrite Z.shiftl_mul_pow2 by lia.
  replace (2 ^ Z.of_nat i * 2 ^ 1) with (2 ^ Z.of_nat (S i))
    by (rewrite Nat2Z.inj_succ, Z.pow_succ_r by lia; lia).
  apply to_size_t_small. split; [apply Z.pow_nonneg; lia|].
  apply Z.pow_lt_mono_r; lia.
Qed.

Lemma real_length_finds (length : Z) :
  length <= 2 ^ 63 ->
  forall (fuel i : nat),
    (i <= 63)%nat -> (64 - i <= fuel)%nat ->
    (i = 0%nat \/ 2 ^ (Z.of_nat i - 1) < length) ->
    exists k : nat,
      (k <= 63)%nat /\
      real_length fuel (2 ^ Z.of_nat i) length = Some (2 ^ Z.of_nat k) /\
      length <= 2 ^ Z.of_nat k /\
      (k = 0%nat \/ 2 ^ (Z.of_nat k - 1) < length).
Proof.
  intros Hlen. induction fuel as [|fuel IH]; intros i Hi Hfuel Hprev.
  - lia.
  - simpl. destruct (2 ^ Z.of_nat i <? length) eqn:E.
    + apply Z.ltb_lt in E.
      assert (Hi' : (i < 63)%nat).
      { destruct (Nat.eq_dec i 63%nat) as [->|]; [|lia].
        change (Z.of_nat 63) with 63 in E. lia. }
      rewrite shiftl_pow2 by exact Hi'.
      apply IH; [lia | lia |]. right.
      replace (Z.of_nat (S i) - 1) with (Z.of_nat i) by lia. exact E.
    + apply Z.ltb_ge in E. exists i. auto.
Qed.

Lemma real_length_log2_up (length : Z) (fuel : nat) :
  length <= 2 ^ 63 -> (64 <= fuel)%nat ->
  real_length fuel 1 length = Some (2 ^ Z.log2_up length) /\
  1 <= 2 ^ Z.log2_up length <= 2 ^ 63 /\
  least_power_of_two_geq (2 ^ Z.log2_up length) length.
Proof.
  intros Hlen Hfuel.
  destruct (real_length_finds length Hlen fuel 0) as (k & Hk & Hr & Hle & Hmin);
    [lia | lia | left; reflexivity |].
  assert (Hlog : Z.log2_up length = Z.of_nat k).
  { destruct Hmin as [->|Hmin].
    - change (2 ^ Z.of_nat 0) with 1 in Hle.
      apply Z.log2_up_eqn0. exact Hle.
    - destruct (Nat.eq_dec k 0%nat) as [->|Hk0].
      + change (2 ^ Z.of_nat 0) with 1 in Hle.
        apply Z.log2_up_eqn0. exact Hle.
      + apply Z.log2_up_unique; [lia|].
        replace (Z.pred (Z.of_nat k)) with (Z.of_nat k - 1) by lia.
        split; assumption. }
  rewrite Hlog. change (2 ^ Z.of_nat 0) with 1 in Hr.
  split; [exact Hr|]. split.
  - split; [|apply Z.pow_le_mono_r; lia].
    pose proof (Z.pow_pos_nonneg 2 (Z.of_nat k)). lia.
  - split; [exists (Z.of_nat k); split; [lia | reflexivity]|].
    split; [exact Hle|]. intros j Hj Hlj.
    destruct Hmin as [->|Hmin].
    + change (2 ^ Z.of_nat 0) with 1.
      pose proof (Z.pow_pos_nonneg 2 j). lia.
    + apply Z.pow_le_mono_r; [lia|].
      assert (Z.of_nat k - 1 < j); [|lia].
      apply (Z.pow_lt_mono_r_iff 2); lia.
Qed.

(** The product is taken in [size_t], so the second limit check never
    fires. *)
Lemma product_check_never_fires (l item_size : Z) :
  (GU_ULONG_MAX <? to_size_t (l * item_size)) = false.
Proof.
  apply Z.ltb_ge. unfold to_size_t, wrap, GU_ULONG_MAX.
  pose proof (Z.mod_pos_bound (l * item_size) (2 ^ 64)). lia.
Qed.

(** Past 2^63 the shifted [l] wraps to 0 and the loop never ends. *)
Lemma real_length_spins (length : Z) :
  2 ^ 63 < length ->
  forall (fuel : nat) (l : Z),
    (l = 0 \/ exists i : nat, (i <= 63)%nat /\ l = 2 ^ Z.of_nat i) ->
    real_length fuel l length = None.
Proof.
  intros Hlen. induction fuel as [|fuel IH]; intros l Hl; [reflexivity|].
  simpl.
  assert (Hlt : l < length).
  { destruct Hl as [->|(i & Hi & ->)]; [lia|].
    assert (2 ^ Z.of_nat i <= 2 ^ 63) by (apply Z.pow_le_mono_r; lia). lia. }
  apply Z.ltb_lt in Hlt. rewrite Hlt. apply IH.
  destruct Hl as [->|(i & Hi & ->)]; [left; reflexivity|].
  destruct (Nat.eq_dec i 63%nat) as [->|Hne].
  - left. reflexivity.
  - right. exists (S i). split; [lia|]. apply shiftl_pow2. lia.
Qed.

(** ** The claims about the FIFO *)

(** C6, as the code has it.  For a requested length of at most 2^63 and an
    item size whose product with the rounded capacity fits [size_t], the
    call returns; the capacity [2 ^ log2_up length] is the least power of
    two that is at least the requested length; the result is null exactly
    when [length < 1], [item_size < 1], the capacity exceeds GU_LONG_MAX, or
    one of the two allocations fails; and a FIFO that is returned has that
    capacity as its length, capacity - 1 as its mask, the item size asked
    for, the block of [gu_malloc] as its queue and everything else zero. *)
Theorem create_capacity_or_null (fuel : nat) (calloc_ok : bool)
    (gu_malloc : Z -> option (list Byte.byte)) (length item_size : Z) :
  (64 <= fuel)%nat ->
  length <= 2 ^ 63 ->
  2 ^ Z.log2_up length * item_size <= GU_ULONG_MAX ->
  let cap := 2 ^ Z.log2_up length in
  least_power_of_two_geq cap length /\
  exists r,
    gcs_fifo_lite_create fuel calloc_ok gu_malloc length item_size = Some r /\
    (r = None <->
       length < 1 \/ item_size < 1 \/ GU_LONG_MAX < cap \/
       calloc_ok = false \/ gu_malloc (cap * item_size) = None) /\
    (forall f, r = Some f ->
       fifo_length f = cap /\ mask f = cap - 1 /\
       FifoLite.item_size f = item_size /\
       gu_malloc (cap * item_size) = Some (queue f) /\
       used f = 0 /\ closed f = false /\ destroyed f = false /\
       put_wait f = 0 /\ get_wait f = 0 /\
       put_cond f = [] /\ get_cond f = []).
Proof.
  intros Hfuel Hlen Hprod cap.
  destruct (real_length_log2_up length fuel Hlen Hfuel) as (Hr & Hcap & Hleast).
  split; [exact Hleast|].
  unfold gcs_fifo_lite_create.
  destruct (length <? 1) eqn:El; simpl.
  { apply Z.ltb_lt in El. exists None. split; [reflexivity|].
    split; [|discriminate]. split; [tauto | reflexivity]. }
  destruct (item_size <? 1) eqn:Ei; simpl.
  { apply Z.ltb_lt in Ei. exists None. split; [reflexivity|].
    split; [|discriminate]. split; [tauto | reflexivity]. }
  apply Z.ltb_ge in El, Ei. rewrite Hr. fold cap.
  destruct (GU_LONG_MAX <? cap) eqn:Ec.
  { apply Z.ltb_lt in Ec. exists None. split; [reflexivity|].
    split; [|discriminate]. split; [tauto | reflexivity]. }
  apply Z.ltb_ge in Ec. rewrite product_check_never_fires.
  assert (Hsmall : to_size_t (cap * item_size) = cap * item_size).
  { apply to_size_t_small. unfold GU_ULONG_MAX in Hprod. fold cap in Hprod.
    subst cap. nia. }
  rewrite Hsmall.
  destruct calloc_ok.
  2:{ exists None. split; [reflexivity|].
      split; [|discriminate]. split; [tauto | reflexivity]. }
  destruct (gu_malloc (cap * item_size)) as [q|] eqn:Eq.
  2:{ exists None. split; [reflexivity|].
      split; [|discriminate]. split; [tauto | reflexivity]. }
  eexists. split; [reflexivity|]. split.
  - split; [discriminate|]. intros [H|[H|[H|[H|H]]]]; try lia; discriminate.
  - intros f Hf. injection Hf as <-. simpl. repeat split; reflexivity.
Qed.

(** C7.  When the mutex is taken, [gcs_fifo_lite_close] returns 0 with the
    FIFO closed, both waiter counts 0, nobody left blocked on either
    condition variable (every thread that was blocked on one is woken, into
    a FIFO whose [closed] is set), and queue, length, mask, item size and
    fill level as they were. *)
Theorem close_wakes_everyone (lock_ret : Z) (fifo : gcs_fifo_lite_t) :
  lock_ret = 0 ->
  exists fifo' woken,
    gcs_fifo_lite_close lock_ret fifo = (0, fifo', woken) /\
    closed fifo' = true /\
    put_wait fifo' = 0 /\ get_wait fifo' = 0 /\
    put_cond fifo' = [] /\ get_cond fifo' = [] /\
    (forall t, In t (put_cond fifo) \/ In t (get_cond fifo) <-> In t woken) /\
    queue fifo' = queue fifo /\
    fifo_length fifo' = fifo_length fifo /\
    mask fifo' = mask fifo /\
    item_size fifo' = item_size fifo /\
    used fifo' = used fifo /\
    destroyed fifo' = destroyed fifo.
Proof.
  intros ->. unfold gcs_fifo_lite_close. simpl.
  eexists _, _. split; [reflexivity|]. simpl.
  repeat split; try reflexivity.
  - intros H. apply in_or_app. exact H.
  - intros H. apply in_app_or. exact H.
Qed.

(** ** Concrete runs *)

(** An allocator that never fails and hands out zeroed blocks, and one that
    is out of memory. *)
Definition zeroed (n : Z) : option (list Byte.byte) :=
  Some (repeat Byte.x00 (Z.to_nat n)).

Definition exhausted (n : Z) : option (list Byte.byte) := None.

Lemma create_capacity_or_null_witness :
  exists f,
    gcs_fifo_lite_create 64 true zeroed 5 8 = Some (Some f) /\
    fifo_length f = 8 /\ mask f = 7 /\
    least_power_of_two_geq 8 5.
Proof.
  destruct (create_capacity_or_null 64 true zeroed 5 8)
    as (Hleast & r & Hc & Hnull & Hf);
    [lia | lia | vm_compute; discriminate |].
  destruct r as [f|].
  - exists f. split; [exact Hc|].
    destruct (Hf f eq_refl) as (Hl & Hm & _).
    split; [exact Hl|]. split; [exact Hm | exact Hleast].
  - exfalso. destruct Hnull as [Hn _].
    destruct (Hn eq_refl) as [H|[H|[H|[H|H]]]];
      [lia | lia | vm_compute in H; discriminate
      | discriminate | discriminate].
Defined.

(** C6 as the specification words it does not hold: with length 4 and item
    size 8, where none of the four listed causes applies, the call returns
    null when memory is exhausted. *)
Lemma create_null_when_out_of_memory :
  gcs_fifo_lite_create 64 true exhausted 4 8 = Some None /\
  gcs_fifo_lite_create 64 false zeroed 4 8 = Some None /\
  ~ (4 < 1) /\ ~ (8 < 1) /\
  real_length 64 1 4 = Some 4 /\ ~ (GU_LONG_MAX < 4) /\
  4 * 8 <= GU_ULONG_MAX.
Proof.
  split; [reflexivity|]. split; [reflexivity|].
  split; [lia|]. split; [lia|]. split; [reflexivity|].
  split; [unfold GU_LONG_MAX; lia | unfold GU_ULONG_MAX; lia].
Qed.

(** Outside the range of C6's theorem: 2^62 items of 4 bytes make a product
    that wraps to 0; the call hands out a FIFO over a block of 0 bytes. *)
Example create_wrapped_product :
  gcs_fifo_lite_create 64 true zeroed (2 ^ 62) 4 =
    Some (Some (mkFifo (2 ^ 62) 4 (2 ^ 62 - 1) 0 false false 0 0 [] [] [])).
Proof. reflexivity. Qed.

(** Outside the range of C6's theorem: a length above 2^63 keeps the loop
    spinning, whatever the number of iterations granted. *)
Lemma create_spins (fuel : nat) (calloc_ok : bool)
    (gu_malloc : Z -> option (list Byte.byte)) (length item_size : Z) :
  2 ^ 63 < length -> 1 <= item_size ->
  gcs_fifo_lite_create fuel calloc_ok gu_malloc length item_size = None.
Proof.
  intros Hlen Hitem. unfold gcs_fifo_lite_create.
  replace (length <? 1) with false by (symmetry; apply Z.ltb_ge; lia).
  replace (item_size <? 1) with false by (symmetry; apply Z.ltb_ge; lia).
  simpl. rewrite (real_length_spins length Hlen fuel 1); [reflexivity|].
  right. exists 0%nat. split; [lia | reflexivity].
Qed.

Definition busy_fifo : gcs_fifo_lite_t :=
  mkFifo 4 1 3 4 false false 2 1 [11; 12]%nat [21]%nat
         [Byte.x61; Byte.x62; Byte.x63; Byte.x64].

Lemma close_wakes_everyone_witness :
  exists fifo' woken,
    gcs_fifo_lite_close 0 busy_fifo = (0, fifo', woken) /\
    closed fifo' = true /\
    put_wait fifo' = 0 /\ get_wait fifo' = 0 /\
    put_cond fifo' = [] /\ get_cond fifo' = [] /\
    (forall t, In t [11; 12]%nat \/ In t [21]%nat <-> In t woken) /\
    queue fifo' = [Byte.x61; Byte.x62; Byte.x63; Byte.x64] /\
    fifo_length fifo' = 4 /\
    mask fifo' = 3 /\
    item_size fifo' = 1 /\
    used fifo' = 4 /\
    destroyed fifo' = false.
Proof. apply (close_wakes_everyone 0 busy_fifo). reflexivity. Defined.

(** When the mutex cannot be taken the FIFO is left alone. *)
Lemma close_without_lock (lock_ret : Z) (fifo : gcs_fifo_lite_t) :
  lock_ret <> 0 -> gcs_fifo_lite_close lock_ret fifo = (lock_ret, fifo, []).
Proof.
  intros H. unfold gcs_fifo_lite_close.
  replace (lock_ret =? 0) with false by (symmetry; apply Z.eqb_neq; exact H).
  reflexivity.
Qed.

(** ** What a created FIFO looks like *)

Lemma real_length_shape (length : Z) : forall (fuel i : nat) (l : Z),
  (i <= 63)%nat ->
  (i = 0%nat \/ 2 ^ (Z.of_nat i - 1) < length) ->
  real_length fuel (2 ^ Z.of_nat i) length = Some l ->
  exists k : nat,
    (k <= 63)%nat /\ l = 2 ^ Z.of_nat k /\ length <= l /\
    (k = 0%nat \/ 2 ^ (Z.of_nat k - 1) < length).
Proof.
  induction fuel as [|fuel IH]; intros i l Hi Hprev Hr; [discriminate|].
  simpl in Hr. destruct (2 ^ Z.of_nat i <? length) eqn:E.
  - apply Z.ltb_lt in E.
    destruct (Nat.eq_dec i 63%nat) as [->|Hne].
    + change (Z.of_nat 63) with 63 in *.
      rewrite (real_length_spins length E fuel) in Hr; [discriminate|].
      left. reflexivity.
    + rewrite shiftl_pow2 in Hr by lia.
      apply (IH (S i) l); [lia | | exact Hr]. right.
      replace (Z.of_nat (S i) - 1) with (Z.of_nat i) by lia. exact E.
  - apply Z.ltb_ge in E. injection Hr as <-. exists i. auto.
Qed.

Lemma create_shape (fuel : nat) (calloc_ok : bool)
    (gu_malloc : Z -> option (list Byte.byte)) (length item_size : Z)
    (f : gcs_fifo_lite_t) :
  gcs_fifo_lite_create fuel calloc_ok gu_malloc length item_size
    = Some (Some f) ->
  exists k : nat,
    (k <= 62)%nat /\
    fifo_length f = 2 ^ Z.of_nat k /\
    mask f = 2 ^ Z.of_nat k - 1 /\
    1 <= length <= 2 ^ Z.of_nat k /\
    (k = 0%nat \/ 2 ^ (Z.of_nat k - 1) < length) /\
    FifoLite.item_size f = item_size /\ 1 <= item_size /\
    gu_malloc (to_size_t (2 ^ Z.of_nat k * item_size)) = Some (queue f) /\
    used f = 0 /\ closed f = false /\ destroyed f = false.
Proof.
  unfold gcs_fifo_lite_create.
  destruct (length <? 1) eqn:El; [discriminate|].
  destruct (item_size <? 1) eqn:Ei; [discriminate|].
  apply Z.ltb_ge in El, Ei. simpl.
  destruct (real_length fuel 1 length) as [l|] eqn:Er; [|discriminate].
  destruct (real_length_shape length fuel 0 l) as (k & Hk & -> & Hle & Hmin);
    [lia | left; reflexivity | exact Er |].
  destruct (GU_LONG_MAX <? 2 ^ Z.of_nat k) eqn:Ec; [discriminate|].
  apply Z.ltb_ge in Ec. rewrite product_check_never_fires.
  destruct calloc_ok; [|discriminate].
  destruct (gu_malloc _) as [q|] eqn:Eq; [|discriminate].
  intros H. injection H as <-. exists k. simpl.
  assert (Hk62 : (k <= 62)%nat).
  { destruct (Nat.eq_dec k 63%nat) as [->|]; [|lia].
    change (Z.of_nat 63) with 63 in Ec. unfold GU_LONG_MAX in Ec. lia. }
  repeat split; auto; lia.
Qed.

(** The capacity of a FIFO that [gcs_fifo_lite_create] returns is at least
    the requested length and less than twice that, and it is at most
    2^62. *)
Theorem created_capacity_is_tight (fuel : nat) (calloc_ok : bool)
    (gu_malloc : Z -> option (list Byte.byte)) (length item_size : Z)
    (f : gcs_fifo_lite_t) :
  gcs_fifo_lite_create fuel calloc_ok gu_malloc length item_size
    = Some (Some f) ->
  length <= fifo_length f < 2 * length /\ fifo_length f <= 2 ^ 62.
Proof.
  intros H.
  destruct (create_shape _ _ _ _ _ _ H)
    as (k & Hk & Hl & _ & [Hl1 Hl2] & Hmin & _).
  rewrite Hl. split; [split; [exact Hl2|]|].
  - destruct (Nat.eq_dec k 0%nat) as [->|Hk0];
      [change (2 ^ Z.of_nat 0) with 1 in *; lia|].
    destruct Hmin as [->|Hmin]; [contradiction Hk0; reflexivity|].
    replace (Z.of_nat k) with (Z.succ (Z.of_nat k - 1)) at 1 by lia.
    rewrite Z.pow_succ_r by lia. lia.
  - apply Z.pow_le_mono_r; lia.
Qed.

(** In a FIFO that [gcs_fifo_lite_create] returns, masking a position with
    [mask] is taking it modulo the length: the mask wraps positions around
    the queue. *)
Theorem created_mask_wraps (fuel : nat) (calloc_ok : bool)
    (gu_malloc : Z -> option (list Byte.byte)) (length item_size : Z)
    (f : gcs_fifo_lite_t) (i : Z) :
  gcs_fifo_lite_create fuel calloc_ok gu_malloc length item_size
    = Some (Some f) ->
  0 <= i ->
  Z.land i (mask f) = i mod fifo_length f /\
  0 <= Z.land i (mask f) < fifo_length f.
Proof.
  intros H Hi.
  destruct (create_shape _ _ _ _ _ _ H) as (k & Hk & Hl & Hm & _).
  rewrite Hl, Hm.
  replace (2 ^ Z.of_nat k - 1) with (Z.ones (Z.of_nat k))
    by (rewrite Z.ones_equiv; lia).
  rewrite Z.land_ones by lia.
  split; [reflexivity|]. apply Z.mod_pos_bound.
  apply Z.pow_pos_nonneg; lia.
Qed.

(** Closing is idempotent: on a FIFO that has been closed once, a second
    [gcs_fifo_lite_close] returns 0, changes nothing and wakes nobody. *)
Theorem close_is_idempotent (fifo fifo' : gcs_fifo_lite_t) (ret : Z)
    (woken : list nat) :
  gcs_fifo_lite_close 0 fifo = (ret, fifo', woken) ->
  gcs_fifo_lite_close 0 fifo' = (0, fifo', []).
Proof.
  unfold gcs_fifo_lite_close. simpl. intros H. injection H as _ <- _.
  reflexivity.
Qed.

(** ** gcs_fifo_lite_destroy *)

(** Linux values of the <errno.h> codes the function returns. *)
Definition EINVAL : Z := 22.
Definition EALREADY : Z := 114.

(** What the rest of the process answers while a FIFO is destroyed: the
    results of the successive [pthread_cond_destroy] calls on either
    condition variable and of the successive [gu_mutex_destroy] calls, and
    what the other threads have done to the FIFO when the mutex is taken
    again after the [n]-th sleep. *)
Record destroy_env : Type := mkDestroyEnv {
  put_cond_destroy : nat -> Z;
  get_cond_destroy : nat -> Z;
  mutex_destroy    : nat -> Z;
  others           : nat -> gcs_fifo_lite_t -> gcs_fifo_lite_t
}.

(** [while (pthread_cond_destroy (&cond)) { if (wait <= 0) abort();
    wait = 0; gu_cond_broadcast (&cond); }] from the [n]-th call on, for at
    most [fuel] calls; the result is the wait count, the threads still
    blocked and the threads woken. *)
Fixpoint destroy_cond (fuel : nat) (answers : nat -> Z) (n : nat)
    (wait : Z) (cond woken : list nat)
    : option (outcome (Z * list nat * list nat)) :=
  match fuel with
  | O => None
  | S fuel' =>
      if negb (answers n =? 0) then
        if wait <=? 0 then Some Aborted
        else destroy_cond fuel' answers (S n) 0 [] (woken ++ cond)
      else Some (Returns (wait, cond, woken))
  end.

(** [while (f->used) { unlock; usleep (10000); lock; }] for at most [fuel]
    tests of [used]. *)
Fixpoint wait_until_empty (fuel : nat)
    (others : nat -> gcs_fifo_lite_t -> gcs_fifo_lite_t) (n : nat)
    (f : gcs_fifo_lite_t) : option gcs_fifo_lite_t :=
  match fuel with
  | O => None
  | S fuel' =>
      if negb (used f =? 0)
      then wait_until_empty fuel' others (S n) (others n f)
      else Some f
  end.

(** [while (gu_mutex_destroy (&f->lock)) { lock; unlock; }] for at most
    [fuel] calls. *)
Fixpoint destroy_mutex (fuel : nat) (answers : nat -> Z) (n : nat)
    : option unit :=
  match fuel with
  | O => None
  | S fuel' =>
      if negb (answers n =? 0) then destroy_mutex fuel' answers (S n)
      else Some tt
  end.

(** [long gcs_fifo_lite_destroy (gcs_fifo_lite_t* f)]

    [lock_ret] is what the first [gu_mutex_lock] returns.  The result is
    [None] while one of the loops is still running after [fuel] rounds;
    else the return value, the FIFO ([None] once its memory is freed) and
    the threads woken. *)
Definition gcs_fifo_lite_destroy (fuel : nat) (env : destroy_env)
    (lock_ret : Z) (f : option gcs_fifo_lite_t)
    : option (outcome (Z * option gcs_fifo_lite_t * list nat)) :=
  match f with
  | None => Some (Returns (- EINVAL, None, []))
  | Some f =>
      let ret := lock_ret in
      if negb (ret =? 0) then Some (Returns (- ret, Some f, []))
      else if destroyed f then Some (Returns (- EALREADY, Some f, []))
      else
        match destroy_cond fuel (put_cond_destroy env) 0
                           (put_wait f) (put_cond f) [] with
        | None => None
        | Some Aborted => Some Aborted
        | Some Undefined => Some Undefined
        | Some (Returns (wait, cond, woken1)) =>
            let f1 := mkFifo (fifo_length f) (item_size f) (mask f) (used f)
                             true true wait (get_wait f) cond (get_cond f)
                             (queue f) in
            match wait_until_empty fuel (others env) 0 f1 with
            | None => None
            | Some f2 =>
                let f3 := mkFifo 0 (item_size f2) (mask f2) (used f2)
                                 (closed f2) (destroyed f2) (put_wait f2)
                                 (get_wait f2) (put_cond f2) (get_cond f2)
                                 (queue f2) in
                match destroy_cond fuel (get_cond_destroy env) 0
                                   (get_wait f3) (get_cond f3) [] with
                | None => None
                | Some Aborted => Some Aborted
                | Some Undefined => Some Undefined
                | Some (Returns (_, _, woken2)) =>
                    match destroy_mutex fuel (mutex_destroy env) 0 with
                    | None => None
                    | Some _ => Some (Returns (0, None, woken1 ++ woken2))
                    end
                end
            end
        end
  end.

(** The loop around [pthread_cond_destroy] never spins: two calls settle
    it.  It gives up ([abort]) exactly when the first call fails although
    no waiter is counted, or the call after the broadcast fails again;
    otherwise it ends with every thread that was blocked woken if the first
    call failed, and with nothing changed if it succeeded. *)
Theorem destroy_cond_settles (fuel : nat) (answers : nat -> Z) (n : nat)
    (wait : Z) (cond : list nat) :
  (2 <= fuel)%nat ->
  exists r,
    destroy_cond fuel answers n wait cond [] = Some r /\
    (r = Aborted <->
       answers n <> 0 /\ (wait <= 0 \/ answers (S n) <> 0)) /\
    (answers n = 0 -> r = Returns (wait, cond, [])) /\
    (answers n <> 0 -> 0 < wait -> answers (S n) = 0 ->
       r = Returns (0, [], cond)).
Proof.
  intros Hfuel. destruct fuel as [|[|fuel]]; [lia | lia |].
  simpl. destruct (answers n =? 0) eqn:E1; simpl.
  - apply Z.eqb_eq in E1. eexists. split; [reflexivity|].
    split; [split; [discriminate | intros [H _]; contradiction]|].
    split; [reflexivity | intros H; contradiction].
  - apply Z.eqb_neq in E1. destruct (wait <=? 0) eqn:Ew.
    + apply Z.leb_le in Ew. eexists. split; [reflexivity|].
      split; [split; auto|]. split; [intros H; contradiction | lia].
    + apply Z.leb_gt in Ew. destruct (answers (S n) =? 0) eqn:E2; simpl.
      * apply Z.eqb_eq in E2. eexists. split; [reflexivity|].
        split; [split; [discriminate | intros [_ [H|H]]; [lia | contradiction]]|].
        split; [intros H; contradiction | reflexivity].
      * apply Z.eqb_neq in E2. eexists. split; [reflexivity|].
        split; [split; auto|].
        split; [intros H; contradiction | intros _ _ H; contradiction].
Qed.

(** [gcs_fifo_lite_destroy] refuses without touching anything: a null
    pointer gives -EINVAL, a mutex that cannot be taken gives the negated
    error, and a FIFO already marked destroyed gives -EALREADY; in each
    case the FIFO is as it was and nobody is woken. *)
Theorem destroy_refusals (fuel : nat) (env : destroy_env) (lock_ret : Z)
    (f : gcs_fifo_lite_t) :
  gcs_fifo_lite_destroy fuel env lock_ret None
    = Some (Returns (- EINVAL, None, [])) /\
  (lock_ret <> 0 ->
   gcs_fifo_lite_destroy fuel env lock_ret (Some f)
     = Some (Returns (- lock_ret, Some f, []))) /\
  (destroyed f = true ->
   gcs_fifo_lite_destroy fuel env 0 (Some f)
     = Some (Returns (- EALREADY, Some f, []))).
Proof.
  split; [reflexivity|]. split.
  - intros H. unfold gcs_fifo_lite_destroy.
    replace (lock_ret =? 0) with false by (symmetry; apply Z.eqb_neq; exact H).
    reflexivity.
  - intros H. unfold gcs_fifo_lite_destroy. simpl. rewrite H. reflexivity.
Qed.

Lemma wait_until_empty_spins (others : nat -> gcs_fifo_lite_t -> gcs_fifo_lite_t) :
  (forall n g, used g <> 0 -> used (others n g) <> 0) ->
  forall (fuel n : nat) (f : gcs_fifo_lite_t),
    used f <> 0 -> wait_until_empty fuel others n f = None.
Proof.
  intros Hkeep. induction fuel as [|fuel IH]; intros n f Hu; [reflexivity|].
  simpl. replace (used f =? 0) with false
    by (symmetry; apply Z.eqb_neq; exact Hu).
  simpl. apply IH. apply Hkeep. exact Hu.
Qed.

(** [gcs_fifo_lite_destroy] does not come back while items stay in the
    queue: if nobody takes them, then however long it is given it is still
    sleeping and polling (or has given up in the loop before), and the
    FIFO is never freed. *)
Theorem destroy_waits_for_items (fuel : nat) (env : destroy_env)
    (f : gcs_fifo_lite_t) :
  destroyed f = false ->
  used f <> 0 ->
  (forall n g, used g <> 0 -> used (others env n g) <> 0) ->
  gcs_fifo_lite_destroy fuel env 0 (Some f) = None \/
  gcs_fifo_lite_destroy fuel env 0 (Some f) = Some Aborted.
Proof.
  intros Hd Hu Hkeep. unfold gcs_fifo_lite_destroy. simpl. rewrite Hd.
  destruct (destroy_cond fuel (put_cond_destroy env) 0 (put_wait f)
                         (put_cond f) []) as [[[[w c] wk]| |]|] eqn:E.
  - rewrite wait_until_empty_spins; [left; reflexivity | exact Hkeep |].
    exact Hu.
  - right. reflexivity.
  - exfalso. revert E. generalize (put_wait f) (put_cond f) (@nil nat) 0%nat.
    induction fuel as [|fuel IH]; intros w c wk n; simpl; [discriminate|].
    destruct (negb (put_cond_destroy env n =? 0)); [|discriminate].
    destruct (w <=? 0); [discriminate | apply IH].
  - left. reflexivity.
Qed.

(** Destroying an idle FIFO: with the queue empty and both condition
    variables and the mutex free, [gcs_fifo_lite_destroy] returns 0 and the
    memory of the FIFO is freed. *)
Theorem destroy_idle (fuel : nat) (env : destroy_env)
    (f : gcs_fifo_lite_t) :
  (1 <= fuel)%nat ->
  destroyed f = false ->
  used f = 0 ->
  put_cond_destroy env 0%nat = 0 ->
  get_cond_destroy env 0%nat = 0 ->
  mutex_destroy env 0%nat = 0 ->
  gcs_fifo_lite_destroy fuel env 0 (Some f) = Some (Returns (0, None, [])).
Proof.
  intros Hfuel Hd Hu Hp Hg Hm. destruct fuel as [|fuel]; [lia|].
  unfold gcs_fifo_lite_destroy. simpl. rewrite Hd, Hp. simpl.
  rewrite Hu. simpl. rewrite Hg. simpl. rewrite Hm. reflexivity.
Qed.

(** ** More concrete runs *)

(** A process in which every destroy call succeeds at once and the other
    threads leave the FIFO alone. *)
Definition quiet_env : destroy_env :=
  mkDestroyEnv (fun _ => 0) (fun _ => 0) (fun _ => 0) (fun _ g => g).

(** A process in which the first destruction of a condition variable finds
    it busy (EBUSY, 16). *)
Definition busy_once (n : nat) : Z :=
  match n with O => 16 | S _ => 0 end.

Lemma created_capacity_is_tight_witness :
  exists f,
    gcs_fifo_lite_create 64 true zeroed 5 8 = Some (Some f) /\
    5 <= fifo_length f < 10.
Proof.
  eexists. split; [reflexivity|].
  apply (created_capacity_is_tight 64 true zeroed 5 8). reflexivity.
Defined.

Lemma created_mask_wraps_witness :
  exists f,
    gcs_fifo_lite_create 64 true zeroed 5 8 = Some (Some f) /\
    Z.land 13 (mask f) = 13 mod fifo_length f.
Proof.
  eexists. split; [reflexivity|].
  apply (created_mask_wraps 64 true zeroed 5 8); [reflexivity | lia].
Defined.

Lemma close_is_idempotent_witness :
  gcs_fifo_lite_close 0 (snd (fst (gcs_fifo_lite_close 0 busy_fifo)))
    = (0, snd (fst (gcs_fifo_lite_close 0 busy_fifo)), []).
Proof.
  apply (close_is_idempotent busy_fifo _ 0 [11; 12; 21]%nat). reflexivity.
Defined.

Lemma destroy_cond_settles_witness :
  exists r,
    destroy_cond 2 busy_once 0 2 [11; 12]%nat [] = Some r /\
    r = Returns (0, [], [11; 12]%nat).
Proof.
  destruct (destroy_cond_settles 2 busy_once 0 2 [11; 12]%nat)
    as (r & Hr & _ & _ & Hwake); [lia|].
  exists r. split; [exact Hr|].
  apply Hwake; [simpl; lia | lia | reflexivity].
Defined.

Lemma destroy_waits_for_items_witness :
  gcs_fifo_lite_destroy 100 quiet_env 0 (Some busy_fifo) = None \/
  gcs_fifo_lite_destroy 100 quiet_env 0 (Some busy_fifo) = Some Aborted.
Proof.
  apply (destroy_waits_for_items 100 quiet_env busy_fifo).
  - reflexivity.
  - simpl. lia.
  - intros n g H. exact H.
Defined.

End FifoLite.

(** * The gcomm backend: event queue and gcs_gcomm_recv *)

Module GcsGcomm.

(** Linux values of the <errno.h> codes the backend returns. *)
Definition ENOMEM : Z := 12.
Definition EBADFD : Z := 77.
Definition ENOTCONN : Z := 107.

(** What the backend reads of a gcomm [View]: its type, the UUIDs of its
    members, and what [is_empty()] answers. *)
Inductive view_type : Type := V_PRIM | V_NON_PRIM | V_other.

Record View : Type := mkView {
  get_type    : view_type;
  get_members : list Z;
  is_empty    : bool
}.

Record ProtoUpMeta : Type := mkUm {
  get_user_type : Z;
  get_source    : Z
}.

(** [struct vs_ev] *)
Record vs_ev : Type := mkEv {
  rb       : option (list Byte.byte);   (* null, or the bytes it holds *)
  um       : ProtoUpMeta;
  view     : option View;
  msg_size : Z
}.

(** The members of [gcs_comp_msg_t] that gcs_gcomm.cpp accesses. *)
Record gcs_comp_msg_t : Type := mkComp {
  primary  : bool;
  my_idx   : Z;
  memb_num : Z;
  memb     : list string                (* memb[n].id *)
}.

(** [struct gcs_gcomm]; [vs] is null or the transport, of which the UUID is
    all that is read; [evq] is the deque [eq]. *)
Record gcs_gcomm : Type := mkGcomm {
  vs             : option Z;
  evq            : list vs_ev;
  waiter_buf     : Z;
  waiter_buf_len : Z
}.

(** [conn_t], without the members the receive path never touches. *)
Record conn_t : Type := mkConn {
  n_received : Z;
  n_copied   : Z;
  vs_ctx     : gcs_gcomm;
  comp_msg   : option gcs_comp_msg_t;
  comp_map   : gmap Z Z;
  terminate  : bool
}.

(** What gcs_comp_msg.h, gcs_msg_type.h and gcomm's UUID declare; they are
    not among the sources, so they stay abstract. *)
Record backend_decls : Type := mkBackendDecls {
  gcs_comp_msg_new   : bool -> Z -> Z -> option gcs_comp_msg_t;
  gcs_comp_msg_leave : option gcs_comp_msg_t;
  gcs_comp_msg_size  : gcs_comp_msg_t -> Z;
  comp_msg_image     : gcs_comp_msg_t -> list Byte.byte; (* its bytes *)
  sizeof_id          : Z;               (* sizeof(msg->memb[n].id) *)
  to_string          : Z -> string;     (* UUID::to_string *)
  GCS_MSG_COMPONENT  : Z
}.

(** The out-parameters of a receive: the caller's buffer after the call and
    the two cells, [None] while not written. *)
Record outputs : Type := mkOut {
  out_bytes      : list Byte.byte;
  out_msg_type   : option Z;
  out_sender_idx : option Z
}.

(** A receive either sleeps on the condition variable (queue empty, waiter
    buffer registered) or returns. *)
Inductive recv_result : Type :=
| Blocked (c : conn_t)
| Done (ret : Z) (c : option conn_t) (out : outputs).

Definition set_vs_ctx (g : gcs_gcomm) (c : conn_t) : conn_t :=
  mkConn (n_received c) (n_copied c) g (comp_msg c) (comp_map c)
         (terminate c).

Definition set_n_received (v : Z) (c : conn_t) : conn_t :=
  mkConn v (n_copied c) (vs_ctx c) (comp_msg c) (comp_map c) (terminate c).

Definition set_n_copied (v : Z) (c : conn_t) : conn_t :=
  mkConn (n_received c) v (vs_ctx c) (comp_msg c) (comp_map c) (terminate c).

Definition set_comp (m : gcs_comp_msg_t) (cm : gmap Z Z) (c : conn_t)
    : conn_t :=
  mkConn (n_received c) (n_copied c) (vs_ctx c) (Some m) cm (terminate c).

(** A pointer tested as a condition. *)
Definition non_null {A : Type} (p : option A) : bool :=
  match p with Some _ => true | None => false end.

(** [memcpy (dst, src, n)] on the bytes of [dst]. *)
Definition memcpy (dst src : list Byte.byte) (n : Z) : list Byte.byte :=
  take (Z.to_nat n) src ++ drop (Z.to_nat n) dst.

(** [std::map::insert]: an existing key keeps its value. *)
Definition map_insert (k v : Z) (m : gmap Z Z) : gmap Z Z :=
  match m !! k with
  | Some _ => m
  | None => <[k := v]> m
  end.

Section Receive.

Variable D : backend_decls.

(** [std::pair<vs_ev, bool> wait_event (void* wb, size_t wb_len)]; [None]
    when the caller is put to sleep. *)
Definition wait_event (wb wb_len : Z) (g : gcs_gcomm)
    : option (vs_ev * bool) * gcs_gcomm :=
  match evq g with
  | [] => (None, mkGcomm (vs g) (evq g) wb wb_len)
  | ev :: _ => (Some (ev, negb (Z.of_nat (length (evq g)) =? 0)), g)
  end.

(** [void release_event ()]

    The head of the queue is copied into the local [ev] (the copy
    constructor of [vs_ev] allocates a [View] of its own) and popped.  The
    function then deletes [ev.view] and leaves the pointer as it is, and
    [~vs_ev] deletes it once more when [ev] goes out of scope: for an event
    that carries a view the same [View] is deleted twice, which is undefined
    behaviour.  [ReadBuf] is not among the sources; [release ()] followed by
    the destructor's [delete] is taken to be what that class allows. *)
Definition release_event (g : gcs_gcomm) : outcome gcs_gcomm :=
  assert (negb (Z.of_nat (length (evq g)) =? 0));;
  match evq g with
  | [] => Undefined
  | ev :: rest =>
      match view ev with
      | Some _ => Undefined
      | None => mret (mkGcomm (vs g) rest (waiter_buf g) (waiter_buf_len g))
      end
  end.

(** The loop of [fill_comp], from member number [n] on. *)
Fixpoint fill_members (members : list Z) (self : Z) (n : Z)
    (msg : gcs_comp_msg_t) (cm : gmap Z Z)
    : outcome (gcs_comp_msg_t * gmap Z Z) :=
  match members with
  | [] => mret (msg, cm)
  | pid :: members' =>
      if sizeof_id D <=? Z.of_nat (String.length (to_string D pid))
      then Aborted
      else
        let msg1 := mkComp (primary msg) (my_idx msg) (memb_num msg)
                      (<[Z.to_nat n := to_string D pid]> (memb msg)) in
        let msg2 := if pid =? self
                    then mkComp (primary msg1) n (memb_num msg1) (memb msg1)
                    else msg1 in
        fill_members members' self (n + 1) msg2 (map_insert pid n cm)
  end.

(** [static void fill_comp (msg, comp_map, members, self)] *)
Definition fill_comp (msg : option gcs_comp_msg_t) (members : list Z)
    (self : Z) : outcome (gcs_comp_msg_t * gmap Z Z) :=
  match msg with
  | None => Aborted
  | Some m =>
      assert (memb_num m =? Z.of_nat (length members));;
      fill_members members self 0 m ∅
  end.

(** The component message [gcs_gcomm_recv] allocates for a view. *)
Definition new_comp_for (v : View) : option gcs_comp_msg_t :=
  if negb (is_empty v)
  then gcs_comp_msg_new D
         (match get_type v with V_PRIM => true | _ => false end) 0
         (Z.of_nat (length (get_members v)))
  else gcs_comp_msg_leave D.

(** The tail of [gcs_gcomm_recv]: release and count the event if the size
    fits the caller's buffer. *)
Definition finish_recv (ret len : Z) (c : conn_t) (out : outputs)
    : outcome recv_result :=
  if to_size_t ret <=? len then
    g ← release_event (vs_ctx c);
    mret (Done ret
            (Some (set_n_received (to_size_t (n_received c + 1))
                     (set_vs_ctx g c)))
            out)
  else mret (Done ret (Some c) out).

(** [gcs_gcomm_recv (backend, buf, len, msg_type, sender_idx)]; [buf] is
    the address of the caller's buffer and [bytes] what it holds. *)
Definition gcs_gcomm_recv (backend_conn : option conn_t) (buf : Z)
    (bytes : list Byte.byte) (len : Z) : outcome recv_result :=
  let untouched := mkOut bytes None None in
  match backend_conn with
  | None => mret (Done (- EBADFD) None untouched)
  | Some conn =>
      if terminate conn then mret (Done (- ENOTCONN) (Some conn) untouched)
      else
        match wait_event buf len (vs_ctx conn) with
        | (None, g) => mret (Blocked (set_vs_ctx g conn))
        | (Some (ev, second), g) =>
            let conn := set_vs_ctx g conn in
            if negb second
            then mret (Done (- ENOTCONN) (Some conn) untouched)
            else if negb (non_null (rb ev) || negb (msg_size ev =? 0)
                          || non_null (view ev))
            then mret (Done (- ENOTCONN) (Some conn) untouched)
            else if non_null (rb ev) || negb (msg_size ev =? 0) then
              let msg_type := get_user_type (um ev) in
              match comp_map conn !! get_source (um ev) with
              | None => Aborted
              | Some sender_idx =>
                  match rb ev with
                  | Some r =>
                      let ret := to_long (Z.of_nat (length r)) in
                      if to_size_t ret <=? len then
                        finish_recv ret len
                          (set_n_copied (to_size_t (n_copied conn + 1)) conn)
                          (mkOut (memcpy bytes r (to_size_t ret))
                                 (Some msg_type) (Some sender_idx))
                      else
                        finish_recv ret len conn
                          (mkOut bytes (Some msg_type) (Some sender_idx))
                  | None =>
                      assert (0 <? msg_size ev);;
                      finish_recv (to_long (msg_size ev)) len conn
                        (mkOut bytes (Some msg_type) (Some sender_idx))
                  end
              end
            else
              match view ev with
              | None => Undefined
              | Some v =>
                  match new_comp_for v with
                  | None => mret (Done (- ENOMEM) (Some conn) untouched)
                  | Some new_comp =>
                      match vs (vs_ctx conn) with
                      | None => Undefined
                      | Some self =>
                          '(m, cm) ← fill_comp (Some new_comp)
                                       (get_members v) self;
                          let conn := set_comp m cm conn in
                          let size := to_size_t (gcs_comp_msg_size D m) in
                          let cpy := to_long (Z.min size len) in
                          let ret := to_long (Z.max size len) in
                          finish_recv ret len conn
                            (mkOut (memcpy bytes (comp_msg_image D m)
                                           (to_size_t cpy))
                                   (Some (GCS_MSG_COMPONENT D)) None)
                      end
                  end
              end
        end
  end.

(** The size of the message that the event at the head of the queue stands
    for, when the receive path gets as far as sizing it: the length of [rb];
    or [msg_size], for a payload that was copied into the waiter's buffer
    on arrival; or the size of the component message built from the view. *)
Definition message_size (c : conn_t) (ev : vs_ev) : option Z :=
  if non_null (rb ev) || negb (msg_size ev =? 0) then
    match comp_map c !! get_source (um ev) with
    | None => None
    | Some _ =>
        match rb ev with
        | Some r => Some (Z.of_nat (length r))
        | None => Some (msg_size ev)
        end
    end
  else
    match view ev, vs (vs_ctx c) with
    | Some v, Some self =>
        match new_comp_for v with
        | Some nc =>
            match fill_comp (Some nc) (get_members v) self with
            | Returns (m, _) => Some (gcs_comp_msg_size D m)
            | _ => None
            end
        | None => None
        end
    | _, _ => None
    end.

(** ** Facts about the receive path *)

Lemma finish_recv_keeps (ret len : Z) (c : conn_t) (out : outputs) :
  len < to_size_t ret ->
  finish_recv ret len c out = Returns (Done ret (Some c) out).
Proof.
  intros H. unfold finish_recv.
  replace (to_size_t ret <=? len) with false
    by (symmetry; apply Z.leb_gt; exact H).
  reflexivity.
Qed.

Lemma finish_recv_releases (ret len : Z) (c : conn_t) (out : outputs)
    (ev : vs_ev) (rest : list vs_ev) :
  to_size_t ret <= len ->
  evq (vs_ctx c) = ev :: rest ->
  view ev = None ->
  finish_recv ret len c out =
    Returns (Done ret
      (Some (set_n_received (to_size_t (n_received c + 1))
               (set_vs_ctx (mkGcomm (vs (vs_ctx c)) rest
                              (waiter_buf (vs_ctx c))
                              (waiter_buf_len (vs_ctx c))) c)))
      out).
Proof.
  intros H Hq Hv. unfold finish_recv, release_event.
  replace (to_size_t ret <=? len) with true
    by (symmetry; apply Z.leb_le; exact H).
  rewrite Hq, Hv. reflexivity.
Qed.

Lemma finish_recv_deletes_twice (ret len : Z) (c : conn_t) (out : outputs)
    (ev : vs_ev) (rest : list vs_ev) (v : View) :
  to_size_t ret <= len ->
  evq (vs_ctx c) = ev :: rest ->
  view ev = Some v ->
  finish_recv ret len c out = Undefined.
Proof.
  intros H Hq Hv. unfold finish_recv, release_event.
  replace (to_size_t ret <=? len) with true
    by (symmetry; apply Z.leb_le; exact H).
  rewrite Hq, Hv. reflexivity.
Qed.

Lemma finish_recv_cases (ret len : Z) (c : conn_t) (out : outputs)
    (ev : vs_ev) (rest : list vs_ev) (ret' : Z) (c' : conn_t)
    (out' : outputs) :
  evq (vs_ctx c) = ev :: rest ->
  finish_recv ret len c out = Returns (Done ret' (Some c') out') ->
  ret' = ret /\
  ((len < to_size_t ret /\ c' = c) \/
   (to_size_t ret <= len /\ evq (vs_ctx c') = rest /\
    n_received c' = to_size_t (n_received c + 1))).
Proof.
  intros Hq H. destruct (Z.le_gt_cases (to_size_t ret) len) as [Hle|Hgt].
  - destruct (view ev) as [v|] eqn:Hv.
    { rewrite (finish_recv_deletes_twice _ _ _ _ ev rest v Hle Hq Hv) in H.
      discriminate H. }
    rewrite (finish_recv_releases _ _ _ _ ev rest Hle Hq Hv) in H.
    injection H as <- <- <-. split; [reflexivity|]. right. auto.
  - rewrite (finish_recv_keeps _ _ _ _ Hgt) in H.
    injection H as <- <- <-. split; [reflexivity|]. left. auto.
Qed.

Lemma memcpy_prefix (dst src : list Byte.byte) :
  take (length src) (memcpy dst src (Z.of_nat (length src))) = src.
Proof.
  unfold memcpy. rewrite Nat2Z.id, firstn_all.
  rewrite take_app_le by lia. apply firstn_all.
Qed.

Lemma message_size_ext (c c' : conn_t) (ev : vs_ev) :
  comp_map c' = comp_map c -> vs (vs_ctx c') = vs (vs_ctx c) ->
  message_size c' ev = message_size c ev.
Proof. intros H1 H2. unfold message_size. rewrite H1, H2. reflexivity. Qed.

Lemma message_size_view (c c' : conn_t) (ev : vs_ev) :
  rb ev = None -> (msg_size ev =? 0) = true ->
  vs (vs_ctx c') = vs (vs_ctx c) ->
  message_size c' ev = message_size c ev.
Proof.
  intros H1 H2 H3. unfold message_size. rewrite H1, H2, H3. reflexivity.
Qed.

(** What a receive does with an event whose message has size [M], by the
    caller's [len]: the connection it leaves and the value it returns.  An
    event that carries a view is looked at only where the buffer is too
    small for it. *)
Lemma recv_sized (c : conn_t) (ev : vs_ev) (rest : list vs_ev) (buf : Z)
    (bytes : list Byte.byte) (len M : Z) :
  terminate c = false ->
  evq (vs_ctx c) = ev :: rest ->
  message_size c ev = Some M ->
  0 <= len < 2 ^ 64 -> 0 < M < 2 ^ 63 ->
  len < M \/ view ev = None ->
  exists c' out,
    gcs_gcomm_recv (Some c) buf bytes len = Returns (Done M (Some c') out) /\
    vs (vs_ctx c') = vs (vs_ctx c) /\
    terminate c' = false /\
    message_size c' ev = Some M /\
    (len < M ->
       evq (vs_ctx c') = ev :: rest /\ n_received c' = n_received c) /\
    (M <= len ->
       evq (vs_ctx c') = rest /\
       n_received c' = to_size_t (n_received c + 1) /\
       (forall r, rb ev = Some r -> take (length r) (out_bytes out) = r) /\
       (rb ev = None -> out_bytes out = bytes)).
Proof.
  intros Hterm Hq Hsize Hlen HM Hok.
  assert (HMs : to_size_t M = M) by (apply to_size_t_small; lia).
  assert (HMl : to_long M = M) by (apply to_long_small; lia).
  unfold gcs_gcomm_recv. rewrite Hterm. unfold wait_event. rewrite Hq.
  cbn [negb length Nat.add].
  replace (Z.of_nat (S (length rest)) =? 0) with false
    by (symmetry; apply Z.eqb_neq; lia).
  cbn [negb]. cbv zeta.
  assert (Hc : set_vs_ctx (vs_ctx c) c = c) by (destruct c; reflexivity).
  rewrite Hc. clear Hc.
  pose proof Hsize as Hsize0. unfold message_size in Hsize.
  destruct (non_null (rb ev) || negb (msg_size ev =? 0)) eqn:Emsg.
  - (* a payload *)
    replace (non_null (rb ev) || negb (msg_size ev =? 0) || non_null (view ev))
      with true by (rewrite Emsg; reflexivity).
    cbn [negb].
    destruct (comp_map c !! get_source (um ev)) as [idx|] eqn:Eidx;
      [|discriminate].
    destruct (rb ev) as [r|] eqn:Erb.
    + injection Hsize as HMr. rewrite HMr, HMl, HMs.
      destruct (Z.le_gt_cases M len) as [Hfit|Hbig].
      * assert (Hv : view ev = None) by (destruct Hok; [lia | assumption]).
        replace (M <=? len) with true by (symmetry; apply Z.leb_le; lia).
        rewrite (finish_recv_releases _ _ _ _ ev rest)
          by first [exact Hq | exact Hv | rewrite ?HMs; lia].
        eexists _, _. split; [reflexivity|]. simpl.
        split; [reflexivity|]. split; [exact Hterm|].
        split; [rewrite <- Hsize0; apply message_size_ext; reflexivity|].
        split; [lia|]. intros _. rewrite ?HMs.
        split; [reflexivity|]. split; [reflexivity|].
        split; [|discriminate].
        intros r' Hr'. injection Hr' as <-.
        rewrite <- HMr. apply memcpy_prefix.
      * replace (M <=? len) with false by (symmetry; apply Z.leb_gt; lia).
        rewrite finish_recv_keeps by (rewrite HMs; lia).
        eexists _, _. split; [reflexivity|].
        split; [reflexivity|]. split; [exact Hterm|].
        split; [exact Hsize0|].
        split; [auto | lia].
    + injection Hsize as HMr. rewrite HMr, HMl.
      rewrite assert_true_bind by (apply Z.ltb_lt; lia).
      destruct (Z.le_gt_cases M len) as [Hfit|Hbig].
      * assert (Hv : view ev = None) by (destruct Hok; [lia | assumption]).
        rewrite (finish_recv_releases _ _ _ _ ev rest)
          by first [exact Hq | exact Hv | rewrite ?HMs; lia].
        eexists _, _. split; [reflexivity|]. simpl.
        split; [reflexivity|]. split; [exact Hterm|].
        split; [rewrite <- Hsize0; apply message_size_ext; reflexivity|].
        split; [lia|]. intros _. rewrite ?HMs.
        split; [reflexivity|]. split; [reflexivity|].
        split; [discriminate | reflexivity].
      * rewrite finish_recv_keeps by (rewrite HMs; lia).
        eexists _, _. split; [reflexivity|].
        split; [reflexivity|]. split; [exact Hterm|].
        split; [exact Hsize0|].
        split; [auto | lia].
  - (* a view, and so a buffer that is too small *)
    apply orb_false_iff in Emsg as [Erb Ems].
    destruct (rb ev) as [r|] eqn:Erb'; [discriminate|].
    apply negb_false_iff in Ems.
    destruct (view ev) as [v|] eqn:Ev; [|discriminate].
    destruct (vs (vs_ctx c)) as [self|] eqn:Evs; [|discriminate].
    destruct (new_comp_for v) as [nc|] eqn:Enc; [|discriminate].
    destruct (fill_comp (Some nc) (get_members v) self)
      as [[m cm]| |] eqn:Efill; try discriminate.
    injection Hsize as HMr.
    assert (Hbig : len < M) by (destruct Hok; [assumption | discriminate]).
    cbn [non_null negb orb]. cbn [mbind outcome_bind].
    rewrite HMr, HMs.
    assert (Hsz' : message_size (set_comp m cm c) ev = Some M).
    { rewrite <- Hsize0.
      apply message_size_view; [exact Erb' | exact Ems | reflexivity]. }
    rewrite Z.max_l by lia. rewrite HMl.
    rewrite finish_recv_keeps by (rewrite HMs; lia).
    eexists _, _. split; [reflexivity|]. simpl.
    split; [exact Evs|]. split; [exact Hterm|].
    split; [exact Hsz'|].
    split; [|lia]. intros _. split; [exact Hq | reflexivity].
Qed.

(** Whatever a receive returns, the head of the queue is gone and counted
    only if the returned size fits the caller's buffer. *)
Lemma recv_releases_only_what_fits (c : conn_t) (ev : vs_ev)
    (rest : list vs_ev) (buf : Z) (bytes : list Byte.byte) (len ret : Z)
    (c' : conn_t) (out : outputs) :
  evq (vs_ctx c) = ev :: rest ->
  gcs_gcomm_recv (Some c) buf bytes len = Returns (Done ret (Some c') out) ->
  (evq (vs_ctx c') = ev :: rest /\ n_received c' = n_received c) \/
  (to_size_t ret <= len /\ evq (vs_ctx c') = rest /\
   n_received c' = to_size_t (n_received c + 1)).
Proof.
  intros Hq. unfold gcs_gcomm_recv.
  destruct (terminate c).
  { intros H. injection H as <- <- <-. left. auto. }
  unfold wait_event. rewrite Hq.
  assert (Hc : set_vs_ctx (vs_ctx c) c = c) by (destruct c; reflexivity).
  rewrite Hc. clear Hc.
  destruct (negb (negb (Z.of_nat (length (ev :: rest)) =? 0))).
  { intros H. injection H as <- <- <-. left. auto. }
  destruct (negb (non_null (rb ev) || negb (msg_size ev =? 0)
                  || non_null (view ev))).
  { intros H. injection H as <- <- <-. left. auto. }
  assert (Hfin : forall r0 c0 o0,
    evq (vs_ctx c0) = ev :: rest -> n_received c0 = n_received c ->
    finish_recv r0 len c0 o0 = Returns (Done ret (Some c') out) ->
    (evq (vs_ctx c') = ev :: rest /\ n_received c' = n_received c) \/
    (to_size_t ret <= len /\ evq (vs_ctx c') = rest /\
     n_received c' = to_size_t (n_received c + 1))).
  { intros r0 c0 o0 Hq0 Hn0 H.
    destruct (finish_recv_cases _ _ _ _ ev rest _ _ _ Hq0 H)
      as [-> [[_ ->]|(Hle & Hq' & Hn')]].
    - left. auto.
    - right. rewrite Hn0 in Hn'. auto. }
  destruct (non_null (rb ev) || negb (msg_size ev =? 0)).
  - destruct (comp_map c !! get_source (um ev)); [|discriminate].
    destruct (rb ev) as [r|].
    + destruct (to_size_t (to_long (Z.of_nat (length r))) <=? len);
        apply Hfin; try reflexivity; exact Hq.
    + intros H. apply bind_Returns in H as (u & _ & H).
      revert H. apply Hfin; [exact Hq | reflexivity].
  - destruct (view ev) as [v|]; [|discriminate].
    destruct (new_comp_for v); [|intros H; injection H as <- <- <-; left; auto].
    destruct (vs (vs_ctx c)); [|discriminate].
    intros H. apply bind_Returns in H as ([m cm] & _ & H).
    revert H. apply Hfin; [exact Hq | reflexivity].
Qed.

(** ** The claim about the receive path *)


End Receive.

(** ** Concrete runs *)

(** Values to run the model with: a component message of 24 bytes plus 40
    per member, 40-byte member ids, component messages tagged 3. *)
Definition sample_backend_decls : backend_decls :=
  mkBackendDecls
    (fun prim _ n =>
       Some (mkComp prim (-1) n (repeat ""%string (Z.to_nat n))))
    (Some (mkComp false (-1) 0 []))
    (fun m => 24 + 40 * memb_num m)
    (fun m => repeat Byte.x00 (Z.to_nat (24 + 40 * memb_num m)))
    40
    (fun _ => "uuid"%string)
    3.

Definition hello : list Byte.byte :=
  [Byte.x68; Byte.x65; Byte.x6c; Byte.x6c; Byte.x6f].

(** A five-byte message from member 7 (index 0 of the component). *)
Definition hello_ev : vs_ev := mkEv (Some hello) (mkUm 1 7) None 0.

(** A primary view of the members 7 and 9. *)
Definition view_ev : vs_ev :=
  mkEv None (mkUm 0 0) (Some (mkView V_PRIM [7; 9] false)) 0.

Definition sample_conn (q : list vs_ev) : conn_t :=
  mkConn 0 0 (mkGcomm (Some 7) q 0 0) None {[7 := 0]} false.

Definition three_zeros : list Byte.byte := [Byte.x00; Byte.x00; Byte.x00].


(** The same queue, received with a buffer that is first too small and
    then large enough; then the view behind it, whose component message
    takes 104 bytes. *)
Example recv_hello_too_small :
  gcs_gcomm_recv sample_backend_decls (Some (sample_conn [hello_ev; view_ev]))
                 4096 three_zeros 3
    = Returns (Done 5 (Some (sample_conn [hello_ev; view_ev]))
                 (mkOut three_zeros (Some 1) (Some 0))).
Proof. reflexivity. Qed.

Example recv_hello_large_enough :
  gcs_gcomm_recv sample_backend_decls (Some (sample_conn [hello_ev; view_ev]))
                 4096 (repeat Byte.x00 8) 8
    = Returns (Done 5
        (Some (mkConn 1 1 (mkGcomm (Some 7) [view_ev] 0 0) None
                      {[7 := 0]} false))
        (mkOut (hello ++ three_zeros) (Some 1) (Some 0))).
Proof. reflexivity. Qed.

Example recv_view_too_small :
  exists c1 out1,
    gcs_gcomm_recv sample_backend_decls (Some (sample_conn [view_ev]))
                   4096 three_zeros 3
      = Returns (Done 104 (Some c1) out1) /\
    evq (vs_ctx c1) = [view_ev] /\ n_received c1 = 0 /\
    comp_map c1 = {[7 := 0; 9 := 1]}.
Proof.
  eexists _, _. split; [reflexivity|]. split; [reflexivity|].
  split; reflexivity.
Qed.

(** ** Delivery into the queue: gcs_gcomm::handle_up *)

Section Delivery.

Variable D : backend_decls.

(** [ProtoUpMeta()], the default-constructed meta data; gcomm's headers are
    not among the sources, so its value stays abstract. *)
Variable default_um : ProtoUpMeta.

(** gcomm's [ReadBuf] is not among the sources; as in [vs_ev], a buffer
    is the bytes it holds.  For an offset [off] within the buffer,
    [get_len (off)] is the number of bytes from [off] on, and
    [get_buf (off)] and [copy (off)] are those bytes. *)
Definition get_len (r : list Byte.byte) (off : Z) : Z :=
  to_size_t (Z.of_nat (length r) - off).

Definition get_buf (r : list Byte.byte) (off : Z) : list Byte.byte :=
  drop (Z.to_nat off) r.

Definition copy (r : list Byte.byte) (off : Z) : list Byte.byte :=
  drop (Z.to_nat off) r.

(** [vs_ev (r, um_, roff, ms, v)] *)
Definition new_vs_ev (r : option (list Byte.byte)) (um_ : option ProtoUpMeta)
    (roff ms : Z) (v : option View) : vs_ev :=
  mkEv (match r with Some r' => Some (copy r' roff) | None => None end)
       (match um_ with Some m => m | None => default_um end)
       v ms.

(** [eq.push_back (ev)] *)
Definition push_back (ev : vs_ev) (g : gcs_gcomm) : gcs_gcomm :=
  mkGcomm (vs g) (evq g ++ [ev]) (waiter_buf g) (waiter_buf_len g).

(** [memcpy (dst, src, n)] into the buffer at address [dst] of the memory
    the callers' buffers live in; no buffer is touched for [n = 0], and
    writing where no buffer of at least [n] bytes lives is undefined. *)
Definition memcpy_to (dst : Z) (src : list Byte.byte) (n : Z)
    (mem : gmap Z (list Byte.byte)) : outcome (gmap Z (list Byte.byte)) :=
  if n =? 0 then mret mem
  else
    match mem !! dst with
    | None => Undefined
    | Some bytes =>
        if n <=? Z.of_nat (length bytes)
        then mret (<[dst := memcpy bytes src n]> mem)
        else Undefined
    end.

(** [void handle_up (cid, rb, roff, um)]; [um] is null or the meta data
    together with what its [get_view()] answers.  The result is the
    context, the memory, and whether [el->interrupt()] was called. *)
Definition handle_up (g : gcs_gcomm) (mem : gmap Z (list Byte.byte))
    (rb : option (list Byte.byte)) (roff : Z)
    (um : option (ProtoUpMeta * option View))
    : outcome (gcs_gcomm * gmap Z (list Byte.byte) * bool) :=
  match rb, um with
  | None, None =>
      mret (push_back (new_vs_ev None None 0 0 None) g, mem, true)
  | Some _, None => Undefined
  | _, Some (meta, v) =>
      assert (non_null rb ||
              match v with
              | Some v' =>
                  match get_type v' with
                  | V_PRIM | V_NON_PRIM => true
                  | V_other => false
                  end
              | None => false
              end);;
      let '(g1, interrupted) :=
        match v with
        | Some v' =>
            if is_empty v'
            then (push_back (new_vs_ev None None 0 0 v) g, true)
            else (g, false)
        | None => (g, false)
        end in
      match rb with
      | Some r =>
          if (Z.of_nat (length (evq g1)) =? 0)
             && (get_len r roff <=? waiter_buf_len g1)
          then
            mem' ← memcpy_to (waiter_buf g1) (get_buf r roff)
                             (get_len r roff) mem;
            mret (mkGcomm (vs g1)
                    (evq g1 ++ [new_vs_ev None (Some meta) roff
                                          (get_len r roff) None])
                    0 0,
                  mem', interrupted)
          else
            mret (push_back (new_vs_ev rb (Some meta) roff 0 v) g1,
                  mem, interrupted)
      | None =>
          mret (push_back (new_vs_ev rb (Some meta) roff 0 v) g1,
                mem, interrupted)
      end
  end.

Lemma set_vs_ctx_same (c : conn_t) : set_vs_ctx (vs_ctx c) c = c.
Proof. destruct c; reflexivity. Qed.

Lemma recv_blank_head (c : conn_t) (ev : vs_ev) (rest : list vs_ev)
    (buf : Z) (bytes : list Byte.byte) (len : Z) :
  terminate c = false ->
  evq (vs_ctx c) = ev :: rest ->
  rb ev = None -> msg_size ev = 0 -> view ev = None ->
  gcs_gcomm_recv D (Some c) buf bytes len
    = Returns (Done (- ENOTCONN) (Some c) (mkOut bytes None None)).
Proof.
  intros Hterm Hq Hrb Hms Hv. unfold gcs_gcomm_recv.
  rewrite Hterm. unfold wait_event. rewrite Hq, set_vs_ctx_same.
  replace (Z.of_nat (length (ev :: rest)) =? 0) with false
    by (symmetry; apply Z.eqb_neq; simpl; lia).
  rewrite Hrb, Hms, Hv. reflexivity.
Qed.

(** The end of the stream is sticky.  [handle_up] with neither buffer nor
    meta data appends an event that carries nothing and interrupts the
    event loop; once such an event is at the head of the queue, every
    receive returns -ENOTCONN and leaves the connection exactly as it was,
    so the event stays and nothing queued behind it is ever delivered. *)
Theorem end_of_stream_is_sticky (g : gcs_gcomm)
    (mem : gmap Z (list Byte.byte)) (roff : Z) (c : conn_t)
    (rest : list vs_ev) (buf : Z) (bytes : list Byte.byte) (len : Z) :
  let eof_ev := mkEv None default_um None 0 in
  handle_up g mem None roff None = Returns (push_back eof_ev g, mem, true) /\
  (terminate c = false ->
   evq (vs_ctx c) = eof_ev :: rest ->
   gcs_gcomm_recv D (Some c) buf bytes len
     = Returns (Done (- ENOTCONN) (Some c) (mkOut bytes None None))).
Proof.
  intros eof_ev. split; [reflexivity|].
  intros Hterm Hq. apply (recv_blank_head c eof_ev rest); auto.
Qed.

(** An empty payload is taken for the end of the stream.  When a buffer
    with nothing left from [roff] on arrives on an empty queue, [handle_up]
    queues an event with no buffer, no view and size 0; the receive that
    finds it returns -ENOTCONN and leaves it at the head of the queue. *)
Theorem empty_payload_reads_as_end_of_stream (g : gcs_gcomm)
    (mem : gmap Z (list Byte.byte)) (r : list Byte.byte)
    (meta : ProtoUpMeta) (c : conn_t) (buf : Z) (bytes : list Byte.byte)
    (len : Z) :
  evq g = [] ->
  0 <= waiter_buf_len g ->
  let roff := Z.of_nat (length r) in
  let ev := mkEv None meta None 0 in
  handle_up g mem (Some r) roff (Some (meta, None))
    = Returns (mkGcomm (vs g) [ev] 0 0, mem, false) /\
  (terminate c = false ->
   vs_ctx c = mkGcomm (vs g) [ev] 0 0 ->
   gcs_gcomm_recv D (Some c) buf bytes len
     = Returns (Done (- ENOTCONN) (Some c) (mkOut bytes None None))).
Proof.
  intros Hq Hw roff ev. split.
  - unfold handle_up. simpl. rewrite Hq. simpl.
    unfold get_len. subst roff. rewrite Z.sub_diag.
    change (to_size_t 0) with 0.
    replace (0 <=? waiter_buf_len g) with true
      by (symmetry; apply Z.leb_le; exact Hw).
    reflexivity.
  - intros Hterm Hctx. apply (recv_blank_head c ev []); auto.
    rewrite Hctx. reflexivity.
Qed.

(** A view that is empty is queued twice.  [handle_up] first appends an
    event with just the view and interrupts the event loop, then goes on
    and appends the regular event for the same call, view included; the
    waiter's registration is left alone and no payload is copied. *)
Theorem empty_view_is_queued_twice (g : gcs_gcomm)
    (mem : gmap Z (list Byte.byte)) (rb : option (list Byte.byte))
    (roff : Z) (meta : ProtoUpMeta) (v : View) :
  is_empty v = true ->
  non_null rb = true \/ get_type v = V_PRIM \/ get_type v = V_NON_PRIM ->
  (forall r, rb = Some r -> 0 <= roff <= Z.of_nat (length r)) ->
  handle_up g mem rb roff (Some (meta, Some v))
    = Returns (mkGcomm (vs g)
                 (evq g ++ [new_vs_ev None None 0 0 (Some v);
                            new_vs_ev rb (Some meta) roff 0 (Some v)])
                 (waiter_buf g) (waiter_buf_len g),
               mem, true).
Proof.
  intros He Hok _. unfold handle_up.
  assert (Ha : (non_null rb ||
                match get_type v with
                | V_PRIM | V_NON_PRIM => true
                | V_other => false
                end) = true).
  { destruct Hok as [H|[H|H]]; rewrite H; [reflexivity| |];
      destruct (non_null rb); reflexivity. }
  destruct rb as [r|]; simpl in Ha |- *; rewrite ?Ha, He; simpl.
  - rewrite length_app. simpl.
    replace (Z.of_nat (length (evq g) + 1) =? 0) with false
      by (symmetry; apply Z.eqb_neq; lia).
    simpl. unfold push_back. simpl. rewrite <- app_assoc. reflexivity.
  - unfold push_back. simpl. rewrite <- app_assoc. reflexivity.
Qed.

Lemma recv_empty_queue_blocks (c : conn_t) (buf : Z)
    (bytes : list Byte.byte) (len : Z) :
  terminate c = false ->
  evq (vs_ctx c) = [] ->
  gcs_gcomm_recv D (Some c) buf bytes len
    = Returns (Blocked (set_vs_ctx (mkGcomm (vs (vs_ctx c)) [] buf len) c)).
Proof.
  intros Hterm Hq. unfold gcs_gcomm_recv. rewrite Hterm.
  unfold wait_event. rewrite Hq. reflexivity.
Qed.

Lemma handle_up_fits (g : gcs_gcomm) (mem : gmap Z (list Byte.byte))
    (r : list Byte.byte) (roff : Z) (meta : ProtoUpMeta)
    (bytes : list Byte.byte) :
  evq g = [] ->
  0 <= roff -> 0 < Z.of_nat (length r) - roff <= waiter_buf_len g ->
  Z.of_nat (length r) < 2 ^ 64 ->
  mem !! waiter_buf g = Some bytes ->
  Z.of_nat (length r) - roff <= Z.of_nat (length bytes) ->
  let n := Z.of_nat (length r) - roff in
  handle_up g mem (Some r) roff (Some (meta, None))
    = Returns (mkGcomm (vs g) [mkEv None meta None n] 0 0,
               <[waiter_buf g := drop (Z.to_nat roff) r
                                 ++ drop (Z.to_nat n) bytes]> mem,
               false).
Proof.
  intros Hq Hroff [Hpos Hfit] Hr Hmem Hroom n.
  unfold handle_up. simpl. rewrite Hq. simpl.
  unfold get_len. fold n. rewrite (to_size_t_small n) by (subst n; lia).
  replace (n <=? waiter_buf_len g) with true
    by (symmetry; apply Z.leb_le; exact Hfit).
  unfold memcpy_to.
  replace (n =? 0) with false by (symmetry; apply Z.eqb_neq; lia).
  rewrite Hmem.
  replace (n <=? Z.of_nat (length bytes)) with true
    by (symmetry; apply Z.leb_le; exact Hroom).
  simpl. unfold memcpy, get_buf, new_vs_ev. simpl.
  rewrite take_ge; [reflexivity|].
  rewrite length_drop. subst n. lia.
Qed.

Lemma recv_copied_head (c : conn_t) (ev : vs_ev) (rest : list vs_ev)
    (buf : Z) (bytes : list Byte.byte) (len idx : Z) :
  terminate c = false ->
  evq (vs_ctx c) = ev :: rest ->
  rb ev = None -> view ev = None ->
  0 < msg_size ev < 2 ^ 63 -> msg_size ev <= len ->
  comp_map c !! get_source (um ev) = Some idx ->
  gcs_gcomm_recv D (Some c) buf bytes len
    = Returns (Done (msg_size ev)
        (Some (set_n_received (to_size_t (n_received c + 1))
                 (set_vs_ctx (mkGcomm (vs (vs_ctx c)) rest
                                (waiter_buf (vs_ctx c))
                                (waiter_buf_len (vs_ctx c))) c)))
        (mkOut bytes (Some (get_user_type (um ev))) (Some idx))).
Proof.
  intros Hterm Hq Hrb Hv Hms Hfit Hidx. unfold gcs_gcomm_recv.
  rewrite Hterm. unfold wait_event. rewrite Hq, set_vs_ctx_same.
  replace (Z.of_nat (length (ev :: rest)) =? 0) with false
    by (symmetry; apply Z.eqb_neq; simpl; lia).
  rewrite Hrb, Hv. simpl.
  replace (msg_size ev =? 0) with false by (symmetry; apply Z.eqb_neq; lia).
  simpl. rewrite Hidx.
  rewrite assert_true_bind by (apply Z.ltb_lt; lia).
  rewrite to_long_small by lia.
  apply (finish_recv_releases _ _ _ _ ev rest); [|exact Hq|exact Hv].
  rewrite to_size_t_small by lia. exact Hfit.
Qed.

Lemma recv_buffered_head (c : conn_t) (ev : vs_ev) (rest : list vs_ev)
    (r : list Byte.byte) (buf : Z) (bytes : list Byte.byte) (len idx : Z) :
  terminate c = false ->
  evq (vs_ctx c) = ev :: rest ->
  rb ev = Some r -> view ev = None ->
  Z.of_nat (length r) < 2 ^ 63 ->
  comp_map c !! get_source (um ev) = Some idx ->
  let n := Z.of_nat (length r) in
  gcs_gcomm_recv D (Some c) buf bytes len
    = Returns
        (if n <=? len then
           Done n
             (Some (set_n_received (to_size_t (n_received c + 1))
                      (set_vs_ctx (mkGcomm (vs (vs_ctx c)) rest
                                     (waiter_buf (vs_ctx c))
                                     (waiter_buf_len (vs_ctx c)))
                         (set_n_copied (to_size_t (n_copied c + 1)) c))))
             (mkOut (memcpy bytes r n) (Some (get_user_type (um ev)))
                    (Some idx))
         else
           Done n (Some c)
             (mkOut bytes (Some (get_user_type (um ev))) (Some idx))).
Proof.
  intros Hterm Hq Hrb Hv Hr Hidx n. unfold gcs_gcomm_recv.
  rewrite Hterm. unfold wait_event. rewrite Hq, set_vs_ctx_same.
  replace (Z.of_nat (length (ev :: rest)) =? 0) with false
    by (symmetry; apply Z.eqb_neq; simpl; lia).
  rewrite Hrb. simpl. rewrite Hidx. fold n.
  rewrite (to_long_small n) by (subst n; lia).
  rewrite (to_size_t_small n) by (subst n; lia).
  destruct (n <=? len) eqn:E.
  - apply Z.leb_le in E.
    rewrite (finish_recv_releases _ _ _ _ ev rest);
      [reflexivity | | exact Hq | exact Hv].
    rewrite to_size_t_small by (subst n; lia). exact E.
  - apply Z.leb_gt in E. apply finish_recv_keeps.
    rewrite to_size_t_small by (subst n; lia). exact E.
Qed.

(** A message that arrives while a receive sleeps goes straight into the
    sleeper's buffer.  A receive on an empty queue registers its buffer and
    sleeps; [handle_up] with a payload that fits copies the payload to the
    front of that buffer, clears the registration and queues the size; the
    receive, going on, returns that size with the sender's index and the
    user type, takes the event off the queue and counts it as received but
    not as copied. *)
Theorem payload_lands_in_sleepers_buffer (c : conn_t) (buf : Z)
    (bytes : list Byte.byte) (len : Z) (mem : gmap Z (list Byte.byte))
    (r : list Byte.byte) (roff : Z) (meta : ProtoUpMeta) (idx : Z) :
  terminate c = false ->
  evq (vs_ctx c) = [] ->
  mem !! buf = Some bytes ->
  len <= Z.of_nat (length bytes) ->
  0 <= roff ->
  0 < Z.of_nat (length r) - roff <= len ->
  Z.of_nat (length r) < 2 ^ 63 ->
  comp_map c !! get_source meta = Some idx ->
  let n := Z.of_nat (length r) - roff in
  exists c1 g2 mem2 bytes2 c3,
    gcs_gcomm_recv D (Some c) buf bytes len = Returns (Blocked c1) /\
    waiter_buf (vs_ctx c1) = buf /\ waiter_buf_len (vs_ctx c1) = len /\
    handle_up (vs_ctx c1) mem (Some r) roff (Some (meta, None))
      = Returns (g2, mem2, false) /\
    waiter_buf g2 = 0 /\ waiter_buf_len g2 = 0 /\
    mem2 !! buf = Some bytes2 /\
    take (Z.to_nat n) bytes2 = drop (Z.to_nat roff) r /\
    gcs_gcomm_recv D (Some (set_vs_ctx g2 c1)) buf bytes2 len
      = Returns (Done n (Some c3)
                   (mkOut bytes2 (Some (get_user_type meta)) (Some idx))) /\
    evq (vs_ctx c3) = [] /\
    n_received c3 = to_size_t (n_received c + 1) /\
    n_copied c3 = n_copied c.
Proof.
  intros Hterm Hq Hmem Hroom Hroff [Hpos Hfit] Hr Hidx n.
  set (c1 := set_vs_ctx (mkGcomm (vs (vs_ctx c)) [] buf len) c).
  assert (Hh : handle_up (vs_ctx c1) mem (Some r) roff (Some (meta, None))
               = Returns (mkGcomm (vs (vs_ctx c)) [mkEv None meta None n] 0 0,
                          <[buf := drop (Z.to_nat roff) r
                                   ++ drop (Z.to_nat n) bytes]> mem,
                          false)).
  { apply (handle_up_fits (vs_ctx c1) mem r roff meta bytes); simpl;
      try assumption; try reflexivity; lia. }
  exists c1, (mkGcomm (vs (vs_ctx c)) [mkEv None meta None n] 0 0),
         (<[buf := drop (Z.to_nat roff) r ++ drop (Z.to_nat n) bytes]> mem),
         (drop (Z.to_nat roff) r ++ drop (Z.to_nat n) bytes).
  eexists.
  split; [apply recv_empty_queue_blocks; assumption|].
  split; [reflexivity|]. split; [reflexivity|].
  split; [exact Hh|].
  split; [reflexivity|]. split; [reflexivity|].
  split; [apply lookup_insert_eq|].
  split.
  { rewrite take_app_length'; [reflexivity|].
    rewrite length_drop. subst n. lia. }
  split.
  { rewrite (recv_copied_head _ (mkEv None meta None n) [] _ _ _ idx);
      simpl; try reflexivity; try assumption; subst n; lia. }
  simpl. repeat split.
Qed.

Lemma handle_up_queues (g : gcs_gcomm) (mem : gmap Z (list Byte.byte))
    (r : list Byte.byte) (meta : ProtoUpMeta) :
  waiter_buf_len g < Z.of_nat (length r) < 2 ^ 64 ->
  handle_up g mem (Some r) 0 (Some (meta, None))
    = Returns (push_back (mkEv (Some r) meta None 0) g, mem, false).
Proof.
  intros [Hbig Hr]. unfold handle_up. simpl.
  unfold get_len. rewrite Z.sub_0_r, to_size_t_small by lia.
  replace (Z.of_nat (length r) <=? waiter_buf_len g) with false
    by (symmetry; apply Z.leb_gt; exact Hbig).
  rewrite andb_false_r. reflexivity.
Qed.

(** A registration outlives the receive that made it.  A sleeping receive
    registers buffer [bufA]; a message too large for it is queued instead of
    copied and the registration stays; the caller fetches that message with
    a larger buffer, which empties the queue but still leaves [bufA]
    registered.  The next message that fits [bufA] is then copied into
    [bufA], and the receive that collects it, with whatever buffer, gets
    its size, the sender and the type, and not a byte of it. *)
Theorem registration_outlives_its_receive (c : conn_t)
    (mem : gmap Z (list Byte.byte))
    (bufA lenA bufB lenB bufC lenC : Z) (bytesA bytesB bytesC : list Byte.byte)
    (r1 r2 : list Byte.byte) (meta1 meta2 : ProtoUpMeta) (i1 i2 : Z) :
  terminate c = false ->
  evq (vs_ctx c) = [] ->
  mem !! bufA = Some bytesA ->
  0 <= lenA <= Z.of_nat (length bytesA) ->
  lenA < Z.of_nat (length r1) < 2 ^ 63 ->
  Z.of_nat (length r1) <= lenB ->
  0 < Z.of_nat (length r2) <= lenA ->
  Z.of_nat (length r2) <= lenC ->
  comp_map c !! get_source meta1 = Some i1 ->
  comp_map c !! get_source meta2 = Some i2 ->
  exists c1 g2 c3 g4 mem4 c5,
    (* the receive sleeps, [bufA] registered *)
    gcs_gcomm_recv D (Some c) bufA bytesA lenA = Returns (Blocked c1) /\
    (* the large message is queued, the registration stays *)
    handle_up (vs_ctx c1) mem (Some r1) 0 (Some (meta1, None))
      = Returns (g2, mem, false) /\
    waiter_buf g2 = bufA /\ waiter_buf_len g2 = lenA /\
    (* the sleeper learns the size; a larger buffer fetches the message *)
    gcs_gcomm_recv D (Some (set_vs_ctx g2 c1)) bufA bytesA lenA
      = Returns (Done (Z.of_nat (length r1)) (Some (set_vs_ctx g2 c1))
                   (mkOut bytesA (Some (get_user_type meta1)) (Some i1))) /\
    gcs_gcomm_recv D (Some (set_vs_ctx g2 c1)) bufB bytesB lenB
      = Returns (Done (Z.of_nat (length r1)) (Some c3)
                   (mkOut (memcpy bytesB r1 (Z.of_nat (length r1)))
                          (Some (get_user_type meta1)) (Some i1))) /\
    evq (vs_ctx c3) = [] /\
    waiter_buf (vs_ctx c3) = bufA /\ waiter_buf_len (vs_ctx c3) = lenA /\
    (* the next message is written into [bufA] *)
    handle_up (vs_ctx c3) mem (Some r2) 0 (Some (meta2, None))
      = Returns (g4, mem4, false) /\
    mem4 !! bufA = Some (r2 ++ drop (length r2) bytesA) /\
    (forall a, a <> bufA -> mem4 !! a = mem !! a) /\
    (* and collected without its bytes *)
    gcs_gcomm_recv D (Some (set_vs_ctx g4 c3)) bufC bytesC lenC
      = Returns (Done (Z.of_nat (length r2)) (Some c5)
                   (mkOut bytesC (Some (get_user_type meta2)) (Some i2))) /\
    evq (vs_ctx c5) = [].
Proof.
  intros Hterm Hq Hmem [HlenA Hroom] [Hbig Hr1] HfitB [Hpos2 Hfit2] HfitC
         Hi1 Hi2.
  set (g1 := mkGcomm (vs (vs_ctx c)) [] bufA lenA).
  set (c1 := set_vs_ctx g1 c).
  set (ev1 := mkEv (Some r1) meta1 None 0).
  set (g2 := mkGcomm (vs (vs_ctx c)) [ev1] bufA lenA).
  set (c2 := set_vs_ctx g2 c1).
  set (c3 := set_n_received (to_size_t (n_received c2 + 1))
               (set_vs_ctx g1 (set_n_copied (to_size_t (n_copied c2 + 1)) c2))).
  set (n2 := Z.of_nat (length r2)).
  set (ev2 := mkEv None meta2 None n2).
  set (g4 := mkGcomm (vs (vs_ctx c)) [ev2] 0 0).
  set (c4 := set_vs_ctx g4 c3).
  exists c1, g2, c3, g4, (<[bufA := r2 ++ drop (length r2) bytesA]> mem).
  eexists.
  split; [apply recv_empty_queue_blocks; assumption|].
  split; [apply (handle_up_queues g1 mem r1 meta1); simpl; lia|].
  split; [reflexivity|]. split; [reflexivity|].
  split.
  { fold c2. rewrite (recv_buffered_head c2 ev1 [] r1 bufA bytesA lenA i1)
      by first [reflexivity | assumption | lia].
    replace (Z.of_nat (length r1) <=? lenA) with false
      by (symmetry; apply Z.leb_gt; lia).
    reflexivity. }
  split.
  { fold c2. rewrite (recv_buffered_head c2 ev1 [] r1 bufB bytesB lenB i1)
      by first [reflexivity | assumption | lia].
    replace (Z.of_nat (length r1) <=? lenB) with true
      by (symmetry; apply Z.leb_le; lia).
    reflexivity. }
  split; [reflexivity|]. split; [reflexivity|]. split; [reflexivity|].
  split.
  { pose proof (handle_up_fits (vs_ctx c3) mem r2 0 meta2 bytesA) as Hh.
    simpl in Hh. rewrite Z.sub_0_r, Nat2Z.id in Hh.
    apply Hh; try assumption; try reflexivity; lia. }
  split; [apply lookup_insert_eq|].
  split.
  { intros a Ha. apply lookup_insert_ne. intros E. apply Ha. symmetry.
    exact E. }
  split.
  { fold c4. rewrite (recv_copied_head c4 ev2 [] bufC bytesC lenC i2)
      by first [reflexivity | assumption | simpl; subst n2; lia].
    reflexivity. }
  reflexivity.
Qed.

(** ** Component messages: fill_comp *)

(** The id of member [pid] fits [msg->memb[n].id]. *)
Definition id_fits (pid : Z) : Prop :=
  Z.of_nat (String.length (to_string D pid)) < sizeof_id D.

Lemma fill_members_spec (self : Z) (members : list Z) :
  forall (n : Z) (msg : gcs_comp_msg_t) (cm : gmap Z Z),
    0 <= n ->
    NoDup members ->
    Forall id_fits members ->
    (forall pid, pid ∈ members -> cm !! pid = None) ->
    exists m cm',
      fill_members D members self n msg cm = Returns (m, cm') /\
      (forall (i : nat) pid, members !! i = Some pid ->
         cm' !! pid = Some (n + Z.of_nat i) /\
         ((Z.to_nat n + i < length (memb msg))%nat ->
          memb m !! (Z.to_nat n + i)%nat = Some (to_string D pid))) /\
      (forall pid, pid ∉ members -> cm' !! pid = cm !! pid) /\
      (forall (i : nat), members !! i = Some self ->
         my_idx m = n + Z.of_nat i) /\
      (self ∉ members -> my_idx m = my_idx msg) /\
      (forall j : nat, (j < Z.to_nat n)%nat -> memb m !! j = memb msg !! j) /\
      length (memb m) = length (memb msg) /\
      primary m = primary msg /\ memb_num m = memb_num msg.
Proof.
  induction members as [|pid members IH]; intros n msg cm Hn Hnd Hfit Hfresh.
  - exists msg, cm. split; [reflexivity|].
    split; [intros i p H; discriminate|]. split; [reflexivity|].
    split; [intros i H; discriminate|]. repeat split.
  - apply NoDup_cons in Hnd as [Hnotin Hnd].
    apply Forall_cons in Hfit as [Hpid Hfit].
    cbn [fill_members].
    replace (sizeof_id D <=? Z.of_nat (String.length (to_string D pid)))
      with false by (symmetry; apply Z.leb_gt; exact Hpid).
    set (msg1 := mkComp (primary msg) (my_idx msg) (memb_num msg)
                   (<[Z.to_nat n := to_string D pid]> (memb msg))).
    set (msg2 := if pid =? self
                 then mkComp (primary msg1) n (memb_num msg1) (memb msg1)
                 else msg1).
    assert (Hm2 : memb msg2 = <[Z.to_nat n := to_string D pid]> (memb msg)
                  /\ primary msg2 = primary msg
                  /\ memb_num msg2 = memb_num msg
                  /\ my_idx msg2 = if pid =? self then n else my_idx msg).
    { subst msg2. destruct (pid =? self); repeat split. }
    destruct Hm2 as (Hmemb & Hprim & Hnum & Hidx).
    assert (Hcm : map_insert pid n cm = <[pid := n]> cm).
    { unfold map_insert. rewrite Hfresh; [reflexivity|].
      apply elem_of_cons. left. reflexivity. }
    rewrite Hcm.
    destruct (IH (n + 1) msg2 (<[pid := n]> cm)) as
      (m & cm' & Hf & Hmap & Hother & Hself & Hnoself & Hlow & Hlen & Hp & Hnm);
      [lia | exact Hnd | exact Hfit | |].
    { intros p Hin. rewrite lookup_insert_ne by (intros ->; contradiction).
      apply Hfresh. apply elem_of_cons. right. exact Hin. }
    exists m, cm'. split; [exact Hf|].
    assert (Hn1 : Z.to_nat (n + 1) = S (Z.to_nat n)) by lia.
    split.
    { intros [|i] p Hi; simpl in Hi.
      - injection Hi as <-. split.
        + rewrite Hother by exact Hnotin. rewrite lookup_insert_eq.
          f_equal. lia.
        + intros Hlt. rewrite Nat.add_0_r in *.
          rewrite Hlow by lia. rewrite Hmemb.
          apply list_lookup_insert_eq. exact Hlt.
      - destruct (Hmap i p Hi) as [Hc Hmb]. split.
        + rewrite Hc. f_equal. lia.
        + intros Hlt. rewrite Hmemb, length_insert in Hmb.
          replace (Z.to_nat n + S i)%nat with (Z.to_nat (n + 1) + i)%nat
            by lia.
          apply Hmb. lia. }
    split.
    { intros p Hpn. rewrite Hother.
      - apply lookup_insert_ne. intros ->. apply Hpn.
        apply elem_of_cons. left. reflexivity.
      - intros Hin. apply Hpn. apply elem_of_cons. right. exact Hin. }
    split.
    { intros [|i] Hi; simpl in Hi.
      - injection Hi as ->. rewrite Hnoself by exact Hnotin.
        rewrite Hidx, Z.eqb_refl. lia.
      - rewrite (Hself i Hi). lia. }
    split.
    { intros Hns. rewrite Hnoself.
      - rewrite Hidx.
        replace (pid =? self) with false; [reflexivity|].
        symmetry. apply Z.eqb_neq. intros ->. apply Hns.
        apply elem_of_cons. left. reflexivity.
      - intros Hin. apply Hns. apply elem_of_cons. right. exact Hin. }
    split.
    { intros j Hj. rewrite Hlow by lia. rewrite Hmemb.
      apply list_lookup_insert_ne. lia. }
    split; [rewrite Hlen, Hmemb; apply length_insert|].
    split; [rewrite Hp; exact Hprim | rewrite Hnm; exact Hnum].
Qed.

Lemma fill_comp_numbers_members_aux (msg : gcs_comp_msg_t)
    (members : list Z) (self : Z) :
  NoDup members ->
  Forall id_fits members ->
  memb_num msg = Z.of_nat (length members) ->
  exists m cm,
    fill_comp D (Some msg) members self = Returns (m, cm) /\
    (forall (i : nat) pid, members !! i = Some pid ->
       cm !! pid = Some (Z.of_nat i)).
Proof.
  intros Hnd Hfit Hnum.
  destruct (fill_members_spec self members 0 msg ∅)
    as (m & cm & Hf & Hmap & _);
    [lia | exact Hnd | exact Hfit | intros; apply lookup_empty |].
  exists m, cm. split.
  { unfold fill_comp.
    rewrite assert_true_bind by (apply Z.eqb_eq; exact Hnum). exact Hf. }
  intros i pid Hi. destruct (Hmap i pid Hi) as [Hc _].
  rewrite Hc. reflexivity.
Qed.

(** [fill_comp] numbers the members of a view by their position.  For
    distinct members whose ids fit, and a component message allocated for
    as many members, it returns; the map it builds sends the member at
    position [i] to [i] and knows no other id, the message holds the id
    strings in the same positions, [my_idx] is the position of the node's
    own UUID (and stays what it was when the node is not a member). *)
Theorem fill_comp_numbers_members (msg : gcs_comp_msg_t) (members : list Z)
    (self : Z) :
  NoDup members ->
  Forall id_fits members ->
  memb_num msg = Z.of_nat (length members) ->
  length (memb msg) = length members ->
  exists m cm,
    fill_comp D (Some msg) members self = Returns (m, cm) /\
    (forall (i : nat) pid, members !! i = Some pid ->
       cm !! pid = Some (Z.of_nat i) /\
       memb m !! i = Some (to_string D pid)) /\
    (forall pid, pid ∉ members -> cm !! pid = None) /\
    (forall i : nat, members !! i = Some self -> my_idx m = Z.of_nat i) /\
    (self ∉ members -> my_idx m = my_idx msg) /\
    primary m = primary msg /\ memb_num m = memb_num msg.
Proof.
  intros Hnd Hfit Hnum Hlen.
  destruct (fill_members_spec self members 0 msg ∅)
    as (m & cm & Hf & Hmap & Hother & Hself & Hnoself & _ & _ & Hp & Hnm);
    [lia | exact Hnd | exact Hfit | intros; apply lookup_empty |].
  exists m, cm. split.
  { unfold fill_comp.
    rewrite assert_true_bind by (apply Z.eqb_eq; exact Hnum). exact Hf. }
  split.
  { intros i pid Hi. destruct (Hmap i pid Hi) as [Hc Hmb].
    split; [rewrite Hc; f_equal; lia|].
    apply Hmb. rewrite Hlen. simpl.
    apply lookup_lt_Some in Hi. exact Hi. }
  split; [intros pid Hp'; rewrite Hother by exact Hp'; apply lookup_empty|].
  split; [intros i Hi; rewrite (Hself i Hi); lia|].
  auto.
Qed.

Lemma fill_members_too_long (self : Z) (members : list Z) :
  forall (n : Z) (msg : gcs_comp_msg_t) (cm : gmap Z Z),
    Exists (fun pid => ~ id_fits pid) members ->
    fill_members D members self n msg cm = Aborted.
Proof.
  induction members as [|pid members IH]; intros n msg cm Hex.
  - apply Exists_nil in Hex. contradiction.
  - cbn [fill_members].
    destruct (sizeof_id D <=? Z.of_nat (String.length (to_string D pid)))
      eqn:E; [reflexivity|].
    apply Z.leb_gt in E. apply Exists_cons in Hex as [Hbad|Hex].
    + contradiction.
    + apply IH. exact Hex.
Qed.

Lemma fill_members_fits (self : Z) (members : list Z) :
  forall (n : Z) (msg : gcs_comp_msg_t) (cm : gmap Z Z),
    Forall id_fits members ->
    exists r, fill_members D members self n msg cm = Returns r.
Proof.
  induction members as [|pid members IH]; intros n msg cm Hfit.
  - eexists. reflexivity.
  - apply Forall_cons in Hfit as [Hpid Hfit]. cbn [fill_members].
    replace (sizeof_id D <=? Z.of_nat (String.length (to_string D pid)))
      with false by (symmetry; apply Z.leb_gt; exact Hpid).
    apply IH. exact Hfit.
Qed.

(** [fill_comp] returns exactly when the message was allocated for as many
    members as the view has and every member's id string is shorter than
    the id field; in every other case (also for a null message) the process
    is aborted. *)
Theorem fill_comp_returns_or_aborts (msg : option gcs_comp_msg_t)
    (members : list Z) (self : Z) :
  let fine :=
    exists m, msg = Some m /\ memb_num m = Z.of_nat (length members) /\
              Forall id_fits members in
  (fine -> exists r, fill_comp D msg members self = Returns r) /\
  (~ fine -> fill_comp D msg members self = Aborted).
Proof.
  intros fine. split.
  - intros (m & -> & Hnum & Hfit). unfold fill_comp.
    rewrite assert_true_bind by (apply Z.eqb_eq; exact Hnum).
    apply fill_members_fits. exact Hfit.
  - intros Hnot. unfold fill_comp. destruct msg as [m|]; [|reflexivity].
    destruct (memb_num m =? Z.of_nat (length members)) eqn:E;
      [|reflexivity].
    apply Z.eqb_eq in E. rewrite assert_true_bind by reflexivity.
    apply fill_members_too_long.
    apply not_Forall_Exists; [|intros Hall; apply Hnot; exists m; auto].
    intros pid. unfold id_fits. apply Z_lt_dec.
Qed.

(** A view is announced but never released.  With a view at the head of
    the queue, a receive builds the component message and installs it and
    the map of members before it looks at the size of the buffer.  With a
    buffer that is too small it returns the size of the component message
    with the front of that message in the buffer, and the view stays queued
    and uncounted, the map already replaced.  With a buffer that fits,
    [release_event] deletes the view of its copy of the event twice: the
    call has undefined behaviour. *)
Theorem view_is_announced_but_never_released (c : conn_t) (ev : vs_ev)
    (rest : list vs_ev) (v : View) (nc m : gcs_comp_msg_t) (cm : gmap Z Z)
    (self buf : Z) (bytes : list Byte.byte) (len : Z) :
  terminate c = false ->
  evq (vs_ctx c) = ev :: rest ->
  rb ev = None -> msg_size ev = 0 -> view ev = Some v ->
  new_comp_for D v = Some nc ->
  vs (vs_ctx c) = Some self ->
  fill_comp D (Some nc) (get_members v) self = Returns (m, cm) ->
  0 <= len < 2 ^ 63 ->
  let size := to_size_t (gcs_comp_msg_size D m) in
  (len < size < 2 ^ 63 ->
   gcs_gcomm_recv D (Some c) buf bytes len
     = Returns (Done size (Some (set_comp m cm c))
                  (mkOut (memcpy bytes (comp_msg_image D m) len)
                         (Some (GCS_MSG_COMPONENT D)) None))) /\
  (size <= len ->
   gcs_gcomm_recv D (Some c) buf bytes len = Undefined).
Proof.
  intros Hterm Hq Hrb Hms Hv Hnc Hvs Hfill [Hlen0 Hlen] size.
  assert (Hsz : 0 <= size).
  { subst size. unfold to_size_t, wrap. apply Z.mod_pos_bound. lia. }
  assert (Hrun : gcs_gcomm_recv D (Some c) buf bytes len
                 = finish_recv (to_long (Z.max size len)) len (set_comp m cm c)
                     (mkOut (memcpy bytes (comp_msg_image D m)
                                    (to_size_t (to_long (Z.min size len))))
                            (Some (GCS_MSG_COMPONENT D)) None)).
  { unfold gcs_gcomm_recv.
    rewrite Hterm. unfold wait_event. rewrite Hq, set_vs_ctx_same.
    replace (Z.of_nat (length (ev :: rest)) =? 0) with false
      by (symmetry; apply Z.eqb_neq; simpl; lia).
    rewrite Hrb, Hms, Hv. change (0 =? 0) with true.
    cbn [non_null negb orb]. rewrite Hnc, Hvs, Hfill.
    reflexivity. }
  rewrite Hrun. split.
  - intros [Hbig Hsize].
    rewrite Z.max_l, Z.min_r by lia.
    rewrite (to_long_small size), (to_long_small len) by lia.
    rewrite (to_size_t_small len) by lia.
    apply finish_recv_keeps. rewrite to_size_t_small by lia. exact Hbig.
  - intros Hfit.
    rewrite Z.max_r by lia. rewrite (to_long_small len) by lia.
    apply (finish_recv_deletes_twice _ _ _ _ ev rest v).
    + rewrite to_size_t_small by lia. lia.
    + exact Hq.
    + exact Hv.
Qed.

(** A payload from a sender the connection does not know trips the
    assertion: when the source of the event at the head of the queue is not
    in the map of members (no view has been received yet, or the last view
    does not list it), the receive aborts the process, whatever the
    buffer. *)
Theorem unknown_sender_aborts (c : conn_t) (ev : vs_ev) (rest : list vs_ev)
    (buf : Z) (bytes : list Byte.byte) (len : Z) :
  terminate c = false ->
  evq (vs_ctx c) = ev :: rest ->
  non_null (rb ev) = true \/ msg_size ev <> 0 ->
  comp_map c !! get_source (um ev) = None ->
  gcs_gcomm_recv D (Some c) buf bytes len = Aborted.
Proof.
  intros Hterm Hq Hpay Hunknown. unfold gcs_gcomm_recv.
  rewrite Hterm. unfold wait_event. rewrite Hq, set_vs_ctx_same.
  replace (Z.of_nat (length (ev :: rest)) =? 0) with false
    by (symmetry; apply Z.eqb_neq; simpl; lia).
  assert (Hp : (non_null (rb ev) || negb (msg_size ev =? 0)) = true).
  { destruct Hpay as [H|H].
    - rewrite H. reflexivity.
    - apply orb_true_iff. right. apply negb_true_iff, Z.eqb_neq. exact H. }
  rewrite Hp. cbn [negb orb]. rewrite Hunknown. reflexivity.
Qed.

(** ** Receiving many times *)

(** A caller that receives with the buffers of [calls], one after the
    other, until a receive puts it to sleep. *)
Fixpoint receive_all (calls : list (Z * list Byte.byte * Z)) (c : conn_t)
    : outcome conn_t :=
  match calls with
  | [] => mret c
  | (buf, bytes, len) :: calls' =>
      r ← gcs_gcomm_recv D (Some c) buf bytes len;
      match r with
      | Blocked c' => mret c'
      | Done _ (Some c') _ => receive_all calls' c'
      | Done _ None _ => mret c
      end
  end.

Lemma finish_recv_done (ret len : Z) (c : conn_t) (out : outputs)
    (r : recv_result) :
  finish_recv ret len c out = Returns r ->
  exists c', r = Done ret (Some c') out.
Proof.
  unfold finish_recv. destruct (to_size_t ret <=? len).
  - intros H. apply bind_Returns in H as (g & _ & H).
    injection H as <-. eauto.
  - intros H. injection H as <-. eauto.
Qed.

Lemma recv_nonempty_done (c : conn_t) (ev : vs_ev) (rest : list vs_ev)
    (buf : Z) (bytes : list Byte.byte) (len : Z) (r : recv_result) :
  evq (vs_ctx c) = ev :: rest ->
  gcs_gcomm_recv D (Some c) buf bytes len = Returns r ->
  exists ret c' out, r = Done ret (Some c') out.
Proof.
  intros Hq. unfold gcs_gcomm_recv.
  destruct (terminate c); [intros H; injection H as <-; eauto|].
  unfold wait_event. rewrite Hq, set_vs_ctx_same.
  destruct (negb (negb (Z.of_nat (length (ev :: rest)) =? 0)));
    [intros H; injection H as <-; eauto|].
  destruct (negb (non_null (rb ev) || negb (msg_size ev =? 0)
                  || non_null (view ev)));
    [intros H; injection H as <-; eauto|].
  assert (Hfin : forall r0 c0 o0,
            finish_recv r0 len c0 o0 = Returns r ->
            exists ret c' out, r = Done ret (Some c') out).
  { intros r0 c0 o0 H. apply finish_recv_done in H as (c' & ->). eauto. }
  destruct (non_null (rb ev) || negb (msg_size ev =? 0)).
  - destruct (comp_map c !! get_source (um ev)); [|discriminate].
    destruct (rb ev) as [r'|].
    + destruct (to_size_t (to_long (Z.of_nat (length r'))) <=? len);
        apply Hfin.
    + intros H. apply bind_Returns in H as (u & _ & H).
      revert H. apply Hfin.
  - destruct (view ev) as [v|]; [|discriminate].
    destruct (new_comp_for D v); [|intros H; injection H as <-; eauto].
    destruct (vs (vs_ctx c)); [|discriminate].
    intros H. apply bind_Returns in H as ([m cm] & _ & H).
    revert H. apply Hfin.
Qed.

Lemma recv_step (c : conn_t) (buf : Z) (bytes : list Byte.byte) (len : Z)
    (r : recv_result) :
  gcs_gcomm_recv D (Some c) buf bytes len = Returns r ->
  exists c',
    (r = Blocked c' \/ exists ret out, r = Done ret (Some c') out) /\
    ((evq (vs_ctx c') = evq (vs_ctx c) /\ n_received c' = n_received c) \/
     (exists ev, evq (vs_ctx c) = ev :: evq (vs_ctx c') /\
                 n_received c' = to_size_t (n_received c + 1))).
Proof.
  destruct (evq (vs_ctx c)) as [|ev rest] eqn:Hq.
  - unfold gcs_gcomm_recv. destruct (terminate c).
    + intros H. injection H as <-. exists c. split; [right; eauto|].
      left. rewrite Hq. auto.
    + unfold wait_event. rewrite Hq. intros H. injection H as <-.
      eexists. split; [left; reflexivity|]. left. auto.
  - intros H.
    destruct (recv_nonempty_done c ev rest buf bytes len r Hq H)
      as (ret & c' & out & ->).
    exists c'. split; [right; eauto|].
    destruct (recv_releases_only_what_fits D c ev rest buf bytes len
                ret c' out Hq H) as [[Hq' Hn]|(_ & Hq' & Hn)].
    + left. auto.
    + right. exists ev. rewrite Hq'. auto.
Qed.

(** Receiving only ever takes events off the front of the queue, and the
    counter of received messages counts them: after any series of
    receives, what is queued is what was queued without its first [k]
    events, and [n_received] has gone up by [k]. *)
Theorem received_counts_what_left_the_queue
    (calls : list (Z * list Byte.byte * Z)) : forall (c c' : conn_t),
  receive_all calls c = Returns c' ->
  0 <= n_received c ->
  n_received c + Z.of_nat (length (evq (vs_ctx c))) < 2 ^ 64 ->
  exists taken,
    evq (vs_ctx c) = taken ++ evq (vs_ctx c') /\
    n_received c' = n_received c + Z.of_nat (length taken).
Proof.
  induction calls as [|[[buf bytes] len] calls IH]; intros c c' Hrun H0 Hroom.
  - injection Hrun as <-. exists []. split; [reflexivity | simpl; lia].
  - simpl in Hrun. apply bind_Returns in Hrun as (r & Hr & Hrun).
    destruct (recv_step c buf bytes len r Hr) as (c1 & Hshape & Hstep).
    assert (Hc1 : exists taken1,
              evq (vs_ctx c) = taken1 ++ evq (vs_ctx c1) /\
              n_received c1 = n_received c + Z.of_nat (length taken1)).
    { destruct Hstep as [[Hq Hn]|(ev & Hq & Hn)].
      - exists []. split; [symmetry; exact Hq | simpl; lia].
      - exists [ev]. split; [exact Hq|]. rewrite Hn. simpl.
        apply to_size_t_small. rewrite Hq in Hroom. simpl in Hroom. lia. }
    destruct Hc1 as (taken1 & Hq1 & Hn1).
    destruct Hshape as [->|(ret & out & ->)].
    + injection Hrun as <-. exists taken1. auto.
    + destruct (IH c1 c' Hrun) as (taken2 & Hq2 & Hn2).
      * lia.
      * rewrite Hq1, length_app in Hroom. lia.
      * exists (taken1 ++ taken2). rewrite <- app_assoc, <- Hq2.
        split; [exact Hq1|]. rewrite length_app. lia.
Qed.

End Delivery.

(** ** More concrete runs *)

Definition sample_um : ProtoUpMeta := mkUm 255 0.

(** Eight zero bytes at address 4096, the only buffer in memory. *)
Definition eight_zeros : list Byte.byte := repeat Byte.x00 8.
Definition sample_mem : gmap Z (list Byte.byte) := {[4096 := eight_zeros]}.

Definition prim_view : View := mkView V_PRIM [7; 9] false.
Definition leave_view : View := mkView V_NON_PRIM [] true.


Lemma empty_payload_reads_as_end_of_stream_witness :
  handle_up sample_um (mkGcomm (Some 7) [] 0 0) sample_mem (Some hello) 5
            (Some (mkUm 1 7, None))
    = Returns (mkGcomm (Some 7) [mkEv None (mkUm 1 7) None 0] 0 0,
               sample_mem, false) /\
  gcs_gcomm_recv sample_backend_decls
    (Some (sample_conn [mkEv None (mkUm 1 7) None 0])) 4096 eight_zeros 8
    = Returns (Done (- ENOTCONN)
                 (Some (sample_conn [mkEv None (mkUm 1 7) None 0]))
                 (mkOut eight_zeros None None)).
Proof.
  destruct (empty_payload_reads_as_end_of_stream sample_backend_decls
              sample_um (mkGcomm (Some 7) [] 0 0) sample_mem hello
              (mkUm 1 7) (sample_conn [mkEv None (mkUm 1 7) None 0])
              4096 eight_zeros 8) as [Hup Hrecv].
  - reflexivity.
  - simpl. lia.
  - split; [exact Hup|]. apply Hrecv; reflexivity.
Defined.

Lemma empty_view_is_queued_twice_witness :
  exists g,
    handle_up sample_um (mkGcomm (Some 7) [hello_ev] 0 0) sample_mem None 0
              (Some (mkUm 0 0, Some leave_view))
      = Returns (g, sample_mem, true) /\
    length (evq g) = 3%nat.
Proof.
  eexists. split.
  - apply (empty_view_is_queued_twice sample_um
             (mkGcomm (Some 7) [hello_ev] 0 0) sample_mem None 0 (mkUm 0 0)
             leave_view).
    + reflexivity.
    + right. right. reflexivity.
    + intros r H. discriminate H.
  - reflexivity.
Defined.

Lemma payload_lands_in_sleepers_buffer_witness :
  exists c1 g2 mem2 bytes2 c3,
    gcs_gcomm_recv sample_backend_decls (Some (sample_conn []))
                   4096 eight_zeros 8 = Returns (Blocked c1) /\
    handle_up sample_um (vs_ctx c1) sample_mem (Some hello) 0
              (Some (mkUm 1 7, None))
      = Returns (g2, mem2, false) /\
    mem2 !! 4096 = Some bytes2 /\
    take 5 bytes2 = hello /\
    gcs_gcomm_recv sample_backend_decls (Some (set_vs_ctx g2 c1))
                   4096 bytes2 8
      = Returns (Done 5 (Some c3) (mkOut bytes2 (Some 1) (Some 0))) /\
    n_received c3 = 1 /\ n_copied c3 = 0.
Proof.
  destruct (payload_lands_in_sleepers_buffer sample_backend_decls sample_um
              (sample_conn []) 4096 eight_zeros 8 sample_mem hello 0
              (mkUm 1 7) 0)
    as (c1 & g2 & mem2 & bytes2 & c3 & H1 & _ & _ & H2 & _ & _ & H3 & H4
        & H5 & _ & H6 & H7);
    try reflexivity; try (simpl; lia).
  exists c1, g2, mem2, bytes2, c3. auto 10.
Defined.

Definition abc : list Byte.byte := [Byte.x61; Byte.x62; Byte.x63].

(** Three zero bytes at address 4096. *)
Definition small_mem : gmap Z (list Byte.byte) := {[4096 := three_zeros]}.

Lemma registration_outlives_its_receive_witness :
  exists c3 g4 mem4 c5,
    waiter_buf (vs_ctx c3) = 4096 /\ evq (vs_ctx c3) = [] /\
    handle_up sample_um (vs_ctx c3) small_mem (Some abc) 0
              (Some (mkUm 1 7, None))
      = Returns (g4, mem4, false) /\
    mem4 !! 4096 = Some abc /\
    gcs_gcomm_recv sample_backend_decls (Some (set_vs_ctx g4 c3))
                   8192 eight_zeros 8
      = Returns (Done 3 (Some c5) (mkOut eight_zeros (Some 1) (Some 0))).
Proof.
  destruct (registration_outlives_its_receive sample_backend_decls sample_um
              (sample_conn []) small_mem
              4096 3 8192 8 8192 8 three_zeros eight_zeros eight_zeros
              hello abc (mkUm 1 7) (mkUm 1 7) 0 0)
    as (c1 & g2 & c3 & g4 & mem4 & c5 & _ & _ & _ & _ & _ & _ & Hq & Hw & _
        & Hup & Hmem & _ & Hrecv & _);
    try reflexivity; try (simpl; lia).
  exists c3, g4, mem4, c5.
  split; [exact Hw|]. split; [exact Hq|]. split; [exact Hup|].
  split; [exact Hmem | exact Hrecv].
Defined.

Lemma fill_comp_numbers_members_witness :
  exists m cm,
    fill_comp sample_backend_decls (Some (mkComp true (-1) 2 [""; ""]%string))
              [7; 9] 9 = Returns (m, cm) /\
    cm !! 7 = Some 0 /\ cm !! 9 = Some 1 /\ cm !! 8 = None /\
    my_idx m = 1 /\ memb m !! 1%nat = Some "uuid"%string.
Proof.
  destruct (fill_comp_numbers_members sample_backend_decls
              (mkComp true (-1) 2 [""; ""]%string) [7; 9] 9)
    as (m & cm & Hf & Hmap & Hother & Hself & _).
  - apply (bool_decide_unpack _). vm_compute. exact I.
  - repeat constructor; unfold id_fits; simpl; lia.
  - reflexivity.
  - reflexivity.
  - exists m, cm. split; [exact Hf|].
    split; [apply (Hmap 0%nat 7); reflexivity|].
    split; [apply (Hmap 1%nat 9); reflexivity|].
    split.
    { apply Hother. intros Hin.
      apply elem_of_cons in Hin as [Hin|Hin]; [discriminate|].
      apply elem_of_cons in Hin as [Hin|Hin]; [discriminate|].
      apply elem_of_nil in Hin. exact Hin. }
    split; [apply (Hself 1%nat); reflexivity|].
    apply (Hmap 1%nat 9). reflexivity.
Defined.

Lemma view_is_announced_but_never_released_witness :
  (exists c1 out1,
     gcs_gcomm_recv sample_backend_decls (Some (sample_conn [view_ev]))
                    4096 three_zeros 3
       = Returns (Done 104 (Some c1) out1) /\
     evq (vs_ctx c1) = [view_ev] /\
     comp_map c1 = {[7 := 0; 9 := 1]}) /\
  gcs_gcomm_recv sample_backend_decls (Some (sample_conn [view_ev]))
                 4096 (repeat Byte.x00 128) 128 = Undefined.
Proof.
  set (r := fill_comp sample_backend_decls
              (Some (mkComp true (-1) 2 [""; ""]%string)) [7; 9] 7).
  set (m := match r with Returns (m, _) => m | _ => mkComp true 0 0 [] end).
  set (cm := match r with Returns (_, cm) => cm | _ => ∅ end).
  assert (Hf : r = Returns (m, cm)) by reflexivity.
  split.
  - destruct (view_is_announced_but_never_released sample_backend_decls
                (sample_conn [view_ev]) view_ev []
                (mkView V_PRIM [7; 9] false)
                (mkComp true (-1) 2 [""; ""]%string) m cm 7
                4096 three_zeros 3
                eq_refl eq_refl eq_refl eq_refl eq_refl eq_refl eq_refl Hf)
      as [Hsmall _]; [lia|].
    eexists _, _. split.
    + rewrite Hsmall; [reflexivity|]. vm_compute. split; reflexivity.
    + split; reflexivity.
  - destruct (view_is_announced_but_never_released sample_backend_decls
                (sample_conn [view_ev]) view_ev []
                (mkView V_PRIM [7; 9] false)
                (mkComp true (-1) 2 [""; ""]%string) m cm 7
                4096 (repeat Byte.x00 128) 128
                eq_refl eq_refl eq_refl eq_refl eq_refl eq_refl eq_refl Hf)
      as [_ Hfit]; [lia|].
    apply Hfit. vm_compute. discriminate.
Defined.

Lemma unknown_sender_aborts_witness :
  gcs_gcomm_recv sample_backend_decls
    (Some (sample_conn [mkEv (Some hello) (mkUm 1 9) None 0]))
    4096 eight_zeros 8 = Aborted.
Proof.
  apply (unknown_sender_aborts sample_backend_decls
           (sample_conn [mkEv (Some hello) (mkUm 1 9) None 0])
           (mkEv (Some hello) (mkUm 1 9) None 0) []).
  - reflexivity.
  - reflexivity.
  - left. reflexivity.
  - reflexivity.
Defined.

Lemma received_counts_what_left_the_queue_witness :
  exists c' taken,
    receive_all sample_backend_decls
      [(4096, three_zeros, 3); (4096, eight_zeros, 8);
       (4096, three_zeros, 3)]
      (sample_conn [hello_ev; view_ev]) = Returns c' /\
    [hello_ev; view_ev] = taken ++ evq (vs_ctx c') /\
    n_received c' = 0 + Z.of_nat (length taken).
Proof.
  set (calls := [(4096, three_zeros, 3); (4096, eight_zeros, 8);
                 (4096, three_zeros, 3)]).
  set (c' := match receive_all sample_backend_decls calls
                     (sample_conn [hello_ev; view_ev]) with
             | Returns x => x
             | _ => sample_conn []
             end).
  assert (Hrun : receive_all sample_backend_decls calls
                   (sample_conn [hello_ev; view_ev]) = Returns c')
    by reflexivity.
  destruct (received_counts_what_left_the_queue sample_backend_decls calls
              (sample_conn [hello_ev; view_ev]) c' Hrun)
    as (taken & Hq & Hn); [simpl; lia | simpl; lia |].
  exists c', taken. split; [exact Hrun|]. split; [exact Hq | exact Hn].
Defined.

End GcsGcomm.

(** * The asynchronous socket contract (gu_asio_test.cpp) *)

Module Asio.

(** Linux values of the <errno.h> codes that occur. *)
Definition EAGAIN : Z := 11.
Definition EWOULDBLOCK : Z := 11.
Definition EBUSY : Z := 16.
Definition EPIPE : Z := 32.

(** [enum op_status] of the stream engine. *)
Inductive op_status : Type := success | want_read | want_write | eof | error.

#[global] Instance op_status_eq_dec : EqDecision op_status.
Proof. solve_decision. Defined.

(** Modelled from the spec: gu_asio.hpp, which declares gu::AsioErrorCode,
    is not among the sources; section 4.1 has "a single error-code type
    carrying POSIX errno or TLS error; a predicate [is_eof()] is exposed
    because eof is distinguished from other errors". *)
Inductive AsioErrorCode : Type :=
| no_error
| eof_error
| errno_error (value : Z).

Definition is_eof (ec : AsioErrorCode) : bool :=
  match ec with eof_error => true | _ => false end.

(** The conversion from the [int] that the mock engine keeps. *)
Definition AsioErrorCode_of_int (e : Z) : AsioErrorCode :=
  if e =? 0 then no_error else errno_error e.

(** ** MockStreamEngine *)

Record MockStreamEngine : Type := mkEngine {
  next_result                   : op_status;
  next_error                    : Z;
  count_client_handshake_called : Z;
  count_server_handshake_called : Z;
  count_read_called             : Z;
  count_write_called            : Z;
  fd_                           : Z;
  last_error_                   : Z
}.

(** [MockStreamEngine::MockStreamEngine()] *)
Definition new_engine : MockStreamEngine :=
  mkEngine success 0 0 0 0 0 0 0.

(** [enum op_status client_handshake()] *)
Definition client_handshake (e : MockStreamEngine)
    : op_status * MockStreamEngine :=
  (next_result e,
   mkEngine (next_result e) (next_error e)
            (to_size_t (count_client_handshake_called e + 1))
            (count_server_handshake_called e) (count_read_called e)
            (count_write_called e) (fd_ e) (next_error e)).

(** [enum op_status server_handshake()] *)
Definition server_handshake (e : MockStreamEngine)
    : op_status * MockStreamEngine :=
  (next_result e,
   mkEngine (next_result e) (next_error e)
            (count_client_handshake_called e)
            (to_size_t (count_server_handshake_called e + 1))
            (count_read_called e) (count_write_called e) (fd_ e)
            (next_error e)).

Definition set_last_error_ (v : Z) (e : MockStreamEngine) : MockStreamEngine :=
  mkEngine (next_result e) (next_error e) (count_client_handshake_called e)
           (count_server_handshake_called e) (count_read_called e)
           (count_write_called e) (fd_ e) v.

(** [op_result map_return_value (ssize_t result, op_status return_on_block)];
    [errno] is the value the system call left. *)
Definition map_return_value (result errno : Z) (return_on_block : op_status)
    (e : MockStreamEngine) : (op_status * Z) * MockStreamEngine :=
  if negb (bool_decide (next_result e = success)) then
    ((next_result e, to_size_t result), set_last_error_ (next_error e) e)
  else if 0 <? result then ((success, to_size_t result), e)
  else if result =? 0 then ((eof, to_size_t result), e)
  else if (errno =? EAGAIN) || (errno =? EWOULDBLOCK) then
    ((return_on_block, to_size_t result), set_last_error_ errno e)
  else ((error, to_size_t result), set_last_error_ (next_error e) e).

(** [op_result write (const void* buf, size_t count)]; [sent] and [errno]
    are what [::send] answers. *)
Definition write (sent errno : Z) (e : MockStreamEngine)
    : (op_status * Z) * MockStreamEngine :=
  map_return_value sent errno want_write
    (mkEngine (next_result e) (next_error e)
              (count_client_handshake_called e)
              (count_server_handshake_called e) (count_read_called e)
              (to_size_t (count_write_called e + 1)) (fd_ e) (last_error_ e)).

(** [gu::AsioErrorCode last_error() const] *)
Definition last_error (e : MockStreamEngine) : AsioErrorCode :=
  AsioErrorCode_of_int (last_error_ e).

(** The assignment [engine->next_result = r] of the tests. *)
Definition set_next_result (r : op_status) (e : MockStreamEngine)
    : MockStreamEngine :=
  mkEngine r (next_error e) (count_client_handshake_called e)
           (count_server_handshake_called e) (count_read_called e)
           (count_write_called e) (fd_ e) (last_error_ e).

(** ** MockSocketHandler *)

Record MockSocketHandler : Type := mkHandler {
  invocations_            : list string;
  connect_handler_called_ : bool;
  expect_read_            : Z;
  bytes_read_             : Z;
  bytes_written_          : Z;
  last_error_code_        : AsioErrorCode
}.

(** [MockSocketHandler (context)] *)
Definition new_handler : MockSocketHandler :=
  mkHandler [] false 0 0 0 no_error.

(** [void connect_handler (socket, ec)] *)
Definition connect_handler (ec : AsioErrorCode) (h : MockSocketHandler)
    : MockSocketHandler :=
  mkHandler (invocations_ h ++ ["connect"%string]) true (expect_read_ h)
            (bytes_read_ h) (bytes_written_ h) ec.

(** [void write_handler (socket, ec, bytes_transferred)] *)
Definition write_handler (ec : AsioErrorCode) (bytes_transferred : Z)
    (h : MockSocketHandler) : MockSocketHandler :=
  mkHandler (invocations_ h ++ [("write:" +:+ pretty bytes_transferred)%string])
            (connect_handler_called_ h) (expect_read_ h) (bytes_read_ h)
            (to_size_t (bytes_written_ h + bytes_transferred)) ec.

(** How often [connect_handler] has run. *)
Definition connect_invocations (h : MockSocketHandler) : nat :=
  count_occ string_dec (invocations_ h) "connect"%string.

(** ** The client socket *)

(** Modelled from the spec: the states of the missing socket, as the
    stream engine contract distinguishes them: the connect is pending, the
    handshake waits for the socket to become readable or writable "as
    requested", the handshake is done, or it has failed. *)
Inductive phase : Type :=
| connecting
| handshake_wait_read
| handshake_wait_write
| connected
| failed.

(** Modelled from the spec: gu_asio_stream_react.cpp, the socket behind
    [async_connect] and [async_write], is not among the sources.  A socket
    carries its stream engine and its handler, and the buffer of the
    [async_write] in flight with the number of bytes transferred so far. *)
Record AsioSocket : Type := mkSocket {
  socket_phase  : phase;
  engine        : MockStreamEngine;
  handler       : MockSocketHandler;
  write_context : option (list Byte.byte * Z)
}.

(** Modelled from the spec: the handshake step of the missing socket.
    "[client_handshake()] -> one of {success, want_read, want_write, eof,
    error}; re-invoked when the socket becomes readable/writable as
    requested"; on success "[connect_handler] fires ... with no error"; on
    eof and error the handler gets the eof code or the engine's
    [last_error()], as test_client_handshake_eof and
    test_client_handshake_error expect. *)
Definition handshake_step (s : AsioSocket) : AsioSocket :=
  let '(r, e) := client_handshake (engine s) in
  match r with
  | success =>
      mkSocket connected e (connect_handler no_error (handler s))
               (write_context s)
  | want_read => mkSocket handshake_wait_read e (handler s) (write_context s)
  | want_write => mkSocket handshake_wait_write e (handler s) (write_context s)
  | eof =>
      mkSocket failed e (connect_handler eof_error (handler s))
               (write_context s)
  | error =>
      mkSocket failed e (connect_handler (last_error e) (handler s))
               (write_context s)
  end.

(** Modelled from the spec: the step of the missing socket that pushes the
    write in flight, "[write(buf, n)] -> {status, n}", with the handler
    called once the last byte is out or the engine reports eof or an
    error. *)
Definition write_step (sent errno : Z) (s : AsioSocket) : AsioSocket :=
  match write_context s with
  | None => s
  | Some (buf, transferred) =>
      let '((st, n), e) := write sent errno (engine s) in
      match st with
      | success =>
          if Z.of_nat (length buf) <=? transferred + n then
            mkSocket (socket_phase s) e
                     (write_handler no_error (transferred + n) (handler s))
                     None
          else
            mkSocket (socket_phase s) e (handler s)
                     (Some (buf, transferred + n))
      | want_read | want_write =>
          mkSocket (socket_phase s) e (handler s) (write_context s)
      | eof =>
          mkSocket (socket_phase s) e
                   (write_handler eof_error transferred (handler s)) None
      | error =>
          mkSocket (socket_phase s) e
                   (write_handler (last_error e) transferred (handler s)) None
      end
  end.

(** Modelled from the spec: what the reactor reports about the socket's
    descriptor ("re-invoked when the socket becomes readable/writable");
    [writable] carries the answer [::send] would give. *)
Inductive event : Type :=
| connect_completed
| readable
| writable (sent errno : Z).

(** Modelled from the spec: one turn of the reactor of the missing socket
    ([run_one]), which hands an event to the step that asked for it. *)
Definition react (ev : event) (s : AsioSocket) : AsioSocket :=
  match ev, socket_phase s with
  | connect_completed, connecting => handshake_step s
  | readable, handshake_wait_read => handshake_step s
  | writable _ _, handshake_wait_write => handshake_step s
  | writable sent errno, connected => write_step sent errno s
  | _, _ => s
  end.

(** Modelled from the spec: [async_write] of the missing socket.  "A second
    concurrent [async_write] on a socket with one in flight is an error
    (signalled as a busy condition)"; the result is the errno of the
    exception thrown, if any. *)
Definition async_write (buffers : list (list Byte.byte)) (s : AsioSocket)
    : option Z * AsioSocket :=
  match write_context s with
  | Some _ => (Some EBUSY, s)
  | None =>
      (None,
       mkSocket (socket_phase s) (engine s) (handler s)
                (Some (concat buffers, 0)))
  end.

(** What a test does between calls: let the reactor take a turn, or assign
    to the engine's public members. *)
Inductive step : Type :=
| run_one (ev : event)
| assign_next_result (r : op_status)
| assign_next_error (e : Z).

Definition do_step (st : step) (s : AsioSocket) : AsioSocket :=
  match st with
  | run_one ev => react ev s
  | assign_next_result r =>
      mkSocket (socket_phase s) (set_next_result r (engine s)) (handler s)
               (write_context s)
  | assign_next_error err =>
      mkSocket (socket_phase s)
               (mkEngine (next_result (engine s)) err
                  (count_client_handshake_called (engine s))
                  (count_server_handshake_called (engine s))
                  (count_read_called (engine s))
                  (count_write_called (engine s)) (fd_ (engine s))
                  (last_error_ (engine s)))
               (handler s) (write_context s)
  end.

Definition do_steps (sts : list step) (s : AsioSocket) : AsioSocket :=
  fold_left (fun s st => do_step st s) sts s.

(** The client of TlsServiceClientTestFixture once [async_connect] has been
    called. *)
Definition fixture_client : AsioSocket :=
  mkSocket connecting new_engine new_handler None.

(** ** The tests of the repository, run on the model *)

Example test_client_handshake_want_read :
  count_client_handshake_called
    (engine (do_steps [assign_next_result want_read;
                       run_one connect_completed; run_one readable]
                      fixture_client)) = 2.
Proof. reflexivity. Qed.

Example test_client_handshake_eof :
  let s := do_steps [assign_next_result eof; run_one connect_completed]
                    fixture_client in
  connect_handler_called_ (handler s) = true /\
  is_eof (last_error_code_ (handler s)) = true /\
  count_client_handshake_called (engine s) = 1.
Proof. repeat split. Qed.

Example test_client_handshake_eof2 :
  let s := do_steps [assign_next_result want_write;
                     run_one connect_completed;
                     assign_next_result eof; run_one (writable 0 0)]
                    fixture_client in
  connect_handler_called_ (handler s) = true /\
  is_eof (last_error_code_ (handler s)) = true /\
  count_client_handshake_called (engine s) = 2.
Proof. repeat split. Qed.

Example test_client_handshake_error :
  let s := do_steps [assign_next_result error; assign_next_error EPIPE;
                     run_one connect_completed]
                    fixture_client in
  connect_handler_called_ (handler s) = true /\
  last_error_code_ (handler s) = errno_error EPIPE /\
  count_client_handshake_called (engine s) = 1.
Proof. repeat split. Qed.

(** ** Facts about the socket *)

Lemma connect_invocations_write_handler ec n h :
  connect_invocations (write_handler ec n h) = connect_invocations h.
Proof.
  unfold connect_invocations, write_handler. simpl.
  rewrite count_occ_app. simpl.
  destruct (string_dec ("write:" +:+ pretty n) "connect") as [E|_];
    [discriminate E | lia].
Qed.

Lemma connect_invocations_connect_handler ec h :
  connect_invocations (connect_handler ec h) = S (connect_invocations h).
Proof.
  unfold connect_invocations, connect_handler. simpl.
  rewrite count_occ_app. simpl. lia.
Qed.

Lemma write_client_count sent errno e :
  count_client_handshake_called (snd (write sent errno e))
    = count_client_handshake_called e.
Proof.
  unfold write, map_return_value. simpl.
  repeat (match goal with |- context [if ?b then _ else _] => destruct b end);
    reflexivity.
Qed.

Definition settled (s : AsioSocket) : Prop :=
  socket_phase s = connected \/ socket_phase s = failed.

Lemma write_step_settled sent errno s :
  socket_phase (write_step sent errno s) = socket_phase s /\
  connect_invocations (handler (write_step sent errno s))
    = connect_invocations (handler s) /\
  count_client_handshake_called (engine (write_step sent errno s))
    = count_client_handshake_called (engine s).
Proof.
  unfold write_step. destruct (write_context s) as [[buf tr]|]; [|auto].
  pose proof (write_client_count sent errno (engine s)) as Hc.
  destruct (write sent errno (engine s)) as [[st n] e]. simpl in Hc.
  destruct st; simpl;
    try (destruct (Z.of_nat (length buf) <=? tr + n); simpl);
    rewrite ?connect_invocations_write_handler; auto.
Qed.

Lemma do_step_settled st s :
  settled s ->
  settled (do_step st s) /\
  connect_invocations (handler (do_step st s))
    = connect_invocations (handler s) /\
  count_client_handshake_called (engine (do_step st s))
    = count_client_handshake_called (engine s).
Proof.
  intros Hs. destruct st as [ev| |]; simpl; [|auto|auto].
  unfold react. destruct Hs as [Hs|Hs]; rewrite Hs.
  - destruct ev; try (split; [left; exact Hs | auto]).
    destruct (write_step_settled sent errno s) as (Hp & Hi & Hc).
    split; [left; rewrite Hp; exact Hs | auto].
  - destruct ev; split; try (right; exact Hs); auto.
Qed.

Lemma do_steps_settled sts : forall s,
  settled s ->
  connect_invocations (handler (do_steps sts s))
    = connect_invocations (handler s) /\
  count_client_handshake_called (engine (do_steps sts s))
    = count_client_handshake_called (engine s).
Proof.
  induction sts as [|st sts IH]; intros s Hs; [auto|].
  simpl. destruct (do_step_settled st s Hs) as (Hs' & Hi & Hc).
  destruct (IH _ Hs') as [Hi' Hc']. rewrite Hi', Hc'. auto.
Qed.

(** ** The claims about the socket *)

(** C8.  On a socket with one [async_write] outstanding, a second
    [async_write] raises the busy error (errno EBUSY) and leaves the socket,
    the buffer in flight included, as it was, so whatever the reactor does
    next it does as if the second call had not been made; and when the
    engine then takes all the bytes, the write handler of the first write
    is called with no error and the full byte count. *)
Theorem second_async_write_is_busy (s : AsioSocket)
    (first second : list (list Byte.byte)) :
  write_context s = None ->
  exists s1,
    async_write first s = (None, s1) /\
    write_context s1 = Some (concat first, 0) /\
    async_write second s1 = (Some EBUSY, s1) /\
    (forall later,
       do_steps later (snd (async_write second s1)) = do_steps later s1) /\
    (socket_phase s = connected ->
     next_result (engine s) = success ->
     0 < Z.of_nat (length (concat first)) < 2 ^ 64 ->
     forall errno,
       let total := Z.of_nat (length (concat first)) in
       let s2 := react (writable total errno)
                       (snd (async_write second s1)) in
       write_context s2 = None /\
       handler s2 = write_handler no_error total (handler s) /\
       bytes_written_ (handler s2)
         = to_size_t (bytes_written_ (handler s) + total)).
Proof.
  intros Hnone. eexists. split.
  { unfold async_write. rewrite Hnone. reflexivity. }
  split; [reflexivity|]. split; [reflexivity|]. split; [reflexivity|].
  intros Hphase Hnext Hlen errno total s2. subst s2. simpl.
  unfold react. simpl. rewrite Hphase. unfold write_step. simpl.
  unfold write, map_return_value. simpl. rewrite Hnext. simpl.
  fold total.
  replace (0 <? total) with true by (symmetry; apply Z.ltb_lt; lia).
  rewrite to_size_t_small by lia.
  replace (total <=? 0 + total) with true by (symmetry; apply Z.leb_le; lia).
  simpl. replace (0 + total) with total by lia.
  split; [reflexivity|]. split; reflexivity.
Qed.

(** C9.  A client socket whose engine answers [want_read] to the first
    [client_handshake]: when the connect completes the handshake is called
    once and the handler is not; nothing but the socket becoming readable
    calls the handshake again; when it becomes readable the handshake is
    called a second time, and as it now succeeds [connect_handler] runs
    with no error; after that, whatever happens, neither [connect_handler]
    nor the handshake runs again. *)
Theorem handshake_want_read_connects_once (s : AsioSocket)
    (later : list step) :
  socket_phase s = connecting ->
  next_result (engine s) = want_read ->
  let calls s' := count_client_handshake_called (engine s') in
  let s1 := react connect_completed s in
  let s2 := react readable (do_step (assign_next_result success) s1) in
  (socket_phase s1 = handshake_wait_read /\
   handler s1 = handler s /\
   calls s1 = to_size_t (calls s + 1)) /\
  (react connect_completed s1 = s1 /\
   forall sent errno, react (writable sent errno) s1 = s1) /\
  (forall r,
     calls (react readable (do_step (assign_next_result r) s1))
       = to_size_t (calls s1 + 1)) /\
  (socket_phase s2 = connected /\
   handler s2 = connect_handler no_error (handler s) /\
   connect_invocations (handler s2) = S (connect_invocations (handler s)) /\
   last_error_code_ (handler s2) = no_error) /\
  (connect_invocations (handler (do_steps later s2))
     = S (connect_invocations (handler s)) /\
   calls (do_steps later s2) = calls s2).
Proof.
  intros Hphase Hnext calls s1 s2.
  assert (Hs1 : s1 = mkSocket handshake_wait_read
                       (snd (client_handshake (engine s))) (handler s)
                       (write_context s)).
  { subst s1. unfold react. rewrite Hphase. unfold handshake_step.
    simpl. rewrite Hnext. reflexivity. }
  assert (Hs2 : s2 = mkSocket connected
                       (snd (client_handshake
                               (set_next_result success (engine s1))))
                       (connect_handler no_error (handler s))
                       (write_context s)).
  { subst s2. rewrite Hs1. reflexivity. }
  split; [rewrite Hs1; repeat split|].
  split; [rewrite Hs1; split; reflexivity|].
  split.
  { intros r. rewrite Hs1. unfold calls. simpl.
    unfold react, handshake_step. simpl. destruct r; reflexivity. }
  assert (Hi2 : connect_invocations (handler s2)
                = S (connect_invocations (handler s))).
  { rewrite Hs2. simpl. apply connect_invocations_connect_handler. }
  split; [rewrite Hs2 in *; repeat split; exact Hi2|].
  destruct (do_steps_settled later s2) as [Hi Hc].
  { left. rewrite Hs2. reflexivity. }
  unfold calls. rewrite Hi, Hc, Hi2. split; reflexivity.
Qed.

(** ** Concrete runs *)

Definition hdr : list Byte.byte := [Byte.x68; Byte.x64; Byte.x72].
Definition data : list Byte.byte := [Byte.x64; Byte.x61; Byte.x74; Byte.x61].

(** The client of test_write_twice_wo_handling_common once its connect
    handler has run. *)
Definition connected_client : AsioSocket :=
  mkSocket connected new_engine (connect_handler no_error new_handler) None.

Lemma second_async_write_is_busy_witness :
  let s1 := snd (async_write [hdr; data] connected_client) in
  let s2 := react (writable 7 0) (snd (async_write [hdr; data] s1)) in
  write_context s1 = Some (hdr ++ data, 0) /\
  async_write [hdr; data] s1 = (Some 16, s1) /\
  write_context s2 = None /\
  invocations_ (handler s2) = ["connect"; "write:7"]%string /\
  bytes_written_ (handler s2) = 7.
Proof.
  intros s1 s2.
  destruct (second_async_write_is_busy connected_client
              [hdr; data] [hdr; data] eq_refl)
    as (s1' & H1 & H2 & H3 & _ & Hdone).
  assert (E : s1' = s1) by (subst s1; rewrite H1; reflexivity).
  subst s1'.
  split; [exact H2|]. split; [exact H3|].
  destruct (Hdone eq_refl eq_refl) with (errno := 0) as (Hw & Hh & Hb).
  { simpl. lia. }
  split; [exact Hw|].
  split; [exact (f_equal invocations_ Hh) | exact Hb].
Defined.

Lemma handshake_want_read_connects_once_witness :
  let s0 := do_step (assign_next_result want_read) fixture_client in
  let s1 := react connect_completed s0 in
  let s2 := react readable (do_step (assign_next_result success) s1) in
  connect_handler_called_ (handler s1) = false /\
  invocations_ (handler s2) = ["connect"%string] /\
  last_error_code_ (handler s2) = no_error /\
  count_client_handshake_called (engine s2) = 2 /\
  connect_invocations
    (handler (do_steps [run_one readable; run_one (writable 4 0);
                        run_one connect_completed] s2)) = 1%nat.
Proof.
  intros s0 s1 s2.
  destruct (handshake_want_read_connects_once s0
              [run_one readable; run_one (writable 4 0);
               run_one connect_completed] eq_refl eq_refl)
    as ((_ & Hh1 & _) & _ & _ & (_ & Hh2 & _ & He2) & (Hl & _)).
  fold s1 in Hh1. fold s1 s2 in Hh2, He2, Hl.
  split; [rewrite Hh1; reflexivity|].
  split; [rewrite Hh2; reflexivity|].
  split; [exact He2|]. split; [reflexivity | exact Hl].
Defined.

(** ** The reading side of MockSocketHandler *)

(** [size_t read_completion_condition (socket, ec, bytes_transferred)] *)
Definition read_completion_condition (ec : AsioErrorCode)
    (bytes_transferred : Z) (h : MockSocketHandler)
    : Z * MockSocketHandler :=
  (to_size_t (expect_read_ h
              - Z.min (to_size_t (bytes_transferred + bytes_read_ h))
                      (expect_read_ h)),
   mkHandler (invocations_ h
              ++ [("read_completion:" +:+ pretty bytes_transferred)%string])
             (connect_handler_called_ h) (expect_read_ h) (bytes_read_ h)
             (bytes_written_ h) ec).

(** [void read_handler (socket, ec, bytes_transferred)] *)
Definition read_handler (ec : AsioErrorCode) (bytes_transferred : Z)
    (h : MockSocketHandler) : MockSocketHandler :=
  mkHandler (invocations_ h ++ [("read:" +:+ pretty bytes_transferred)%string])
            (connect_handler_called_ h) (expect_read_ h)
            (to_size_t (bytes_read_ h + bytes_transferred))
            (bytes_written_ h) ec.

(** [void expect_read (size_t bytes)] *)
Definition expect_read (bytes : Z) (h : MockSocketHandler)
    : MockSocketHandler :=
  mkHandler (invocations_ h) (connect_handler_called_ h) bytes
            (bytes_read_ h) (bytes_written_ h) (last_error_code_ h).

(** [void consume (size_t count)] *)
Definition consume (count : Z) (h : MockSocketHandler)
    : outcome MockSocketHandler :=
  assert (count <=? bytes_read_ h);;
  mret (mkHandler (invocations_ h) (connect_handler_called_ h)
                  (expect_read_ h) (to_size_t (bytes_read_ h - count))
                  (bytes_written_ h) (last_error_code_ h)).

(** The completion condition asks for what is still missing.  It compares
    [expect_read_] with the bytes so far, the [size_t] sum of the bytes
    transferred and [bytes_read_], which wraps at 2^64: the result is never
    more than [expect_read_], it is the difference while the sum is below
    [expect_read_] and 0 exactly when the sum has reached it, and the
    subtraction itself cannot wrap.  The sum is the number of bytes while
    that is below 2^64; beyond, it is 2^64 less, and the condition may ask
    for more although more than [expect_read_] bytes have arrived. *)
Theorem read_completion_asks_for_the_rest (ec : AsioErrorCode)
    (bytes_transferred : Z) (h : MockSocketHandler) :
  0 <= expect_read_ h < 2 ^ 64 ->
  0 <= bytes_read_ h < 2 ^ 64 -> 0 <= bytes_transferred < 2 ^ 64 ->
  let so_far := to_size_t (bytes_transferred + bytes_read_ h) in
  let more := fst (read_completion_condition ec bytes_transferred h) in
  0 <= more <= expect_read_ h /\
  (so_far < expect_read_ h -> more = expect_read_ h - so_far) /\
  (more = 0 <-> expect_read_ h <= so_far) /\
  (bytes_transferred + bytes_read_ h < 2 ^ 64 ->
   so_far = bytes_transferred + bytes_read_ h) /\
  (2 ^ 64 <= bytes_transferred + bytes_read_ h ->
   so_far = bytes_transferred + bytes_read_ h - 2 ^ 64).
Proof.
  intros He Hr Ht so_far more.
  assert (Hso : 0 <= so_far < 2 ^ 64).
  { subst so_far. unfold to_size_t, wrap. apply Z.mod_pos_bound. lia. }
  assert (Hmore : more = expect_read_ h - Z.min so_far (expect_read_ h)).
  { subst more. cbn [fst read_completion_condition]. fold so_far.
    apply to_size_t_small. lia. }
  split; [lia|]. split; [lia|]. split; [lia|]. split.
  - intros Hsum. subst so_far. apply to_size_t_small. lia.
  - intros Hsum. subst so_far. unfold to_size_t, wrap. symmetry.
    apply (Z.mod_unique _ _ 1); [left|]; lia.
Qed.

(** What [read_handler] adds to the count of bytes read, [consume] takes
    off again; and [consume] of more than has been read aborts. *)
Theorem read_then_consume (ec : AsioErrorCode) (n count : Z)
    (h : MockSocketHandler) :
  0 <= bytes_read_ h -> 0 <= n -> bytes_read_ h + n < 2 ^ 64 ->
  (exists h',
     consume n (read_handler ec n h) = Returns h' /\
     bytes_read_ h' = bytes_read_ h /\
     invocations_ h' = invocations_ h ++ [("read:" +:+ pretty n)%string]) /\
  (bytes_read_ h + n < count ->
   consume count (read_handler ec n h) = Aborted).
Proof.
  intros Hr Hn Hsum. split.
  - unfold consume, read_handler. simpl.
    rewrite (to_size_t_small (bytes_read_ h + n)) by lia.
    rewrite assert_true_bind by (apply Z.leb_le; lia).
    eexists. split; [reflexivity|]. simpl. split; [|reflexivity].
    replace (bytes_read_ h + n - n) with (bytes_read_ h) by lia.
    apply to_size_t_small. lia.
  - intros Hc. unfold consume, read_handler. simpl.
    rewrite (to_size_t_small (bytes_read_ h + n)) by lia.
    apply assert_false_bind. apply Z.leb_gt. exact Hc.
Qed.

Lemma read_completion_asks_for_the_rest_witness :
  fst (read_completion_condition no_error 3 (expect_read 7 new_handler)) = 4.
Proof.
  destruct (read_completion_asks_for_the_rest no_error 3
              (expect_read 7 new_handler)) as (_ & Hmore & _);
    [simpl; lia | simpl; lia | lia |].
  rewrite Hmore; [reflexivity | vm_compute; reflexivity].
Defined.

Lemma read_then_consume_witness :
  exists h',
    consume 7 (read_handler no_error 7 new_handler) = Returns h' /\
    bytes_read_ h' = 0.
Proof.
  destruct (read_then_consume no_error 7 8 new_handler)
    as [(h' & Hc & Hb & _) _]; try (simpl; lia).
  exists h'. split; [exact Hc | exact Hb].
Defined.

End Asio.
